(** * Rag_Agent: conversation store, knowledge store, ingestion and answering

    A shallow embedding of the Python sources
      - components/conversation_manager.py  (ConversationManager)
      - components/vector_store.py          (VectorStoreManager)
      - components/document_processor.py    (DocumentProcessor)
      - app.py                              (RAGAgentUI, the chat turn)
    together with the properties the specification states about them.

    Python methods that talk to the Supabase tables are computations in a
    small state-and-exception monad over the table contents; a
    [try: ... except Exception:] block is the [try_except] combinator. *)

From Stdlib Require Import ZArith Ascii String.
From stdpp Require Import base option list strings gmap sorting.

Local Open Scope string_scope.
Local Open Scope list_scope.
Local Open Scope Z_scope.

(** ** Exceptions and the state-and-exception monad *)

(** The exceptions the modelled calls can raise. *)
Inductive exn : Type :=
  | StoreError      (* the store call failed: unreachable, time-out, ... *)
  | MissingColumn   (* the request names a column the table does not have *)
  | TypeError       (* a Python operation applied to a value of the wrong type *)
  | IOError         (* a file-system call failed *)
  | LoaderError     (* a document loader could not read its file *)
  | ModelError.     (* the language model failed *)

Inductive result (A : Type) : Type :=
  | Ok (a : A)
  | Raise (e : exn).
Arguments Ok {A} a.
Arguments Raise {A} e.

Definition M (S A : Type) : Type := S → result A * S.

Definition ret {S A} (a : A) : M S A := λ s, (Ok a, s).

Definition raise {S A} (e : exn) : M S A := λ s, (Raise e, s).

Definition bind {S A B} (m : M S A) (k : A → M S B) : M S B :=
  λ s, match m s with
       | (Ok a, s') => k a s'
       | (Raise e, s') => (Raise e, s')
       end.

(** [try: body except Exception: handler]; what [body] did to the state
    before it raised stays done. *)
Definition try_except {S A} (body : M S A) (handler : exn → M S A) : M S A :=
  λ s, match body s with
       | (Ok a, s') => (Ok a, s')
       | (Raise e, s') => handler e s'
       end.

(** stdpp's monad notations: [x ← m; k] and [m;; k]. *)
#[global] Instance M_ret {S} : MRet (M S) := λ A, @ret S A.
#[global] Instance M_bind {S} : MBind (M S) := λ A B k m, bind m k.

(** ** Ordering rows

    A stable insertion sort: [x] goes in front of the first element it may
    precede, so rows that compare equal keep their order. *)

Fixpoint insert_by {A} (before : A → A → bool) (x : A) (sorted : list A) : list A :=
  match sorted with
  | [] => [x]
  | e :: rest =>
      if before x e then x :: e :: rest else e :: insert_by before x rest
  end.

Definition sort_by {A} (before : A → A → bool) (l : list A) : list A :=
  foldr (insert_by before) [] l.

(** ** Messages (langchain_core.messages) *)

Inductive Message : Type :=
  | HumanMessage (content : string)
  | AIMessage (content : string).

Definition content (m : Message) : string :=
  match m with HumanMessage c | AIMessage c => c end.

(** [isinstance(msg, HumanMessage)] *)
Definition is_human (m : Message) : bool :=
  match m with HumanMessage _ => true | AIMessage _ => false end.

(** One element of the [messages] JSON array: [{'type': ..., 'content': ...}]. *)
Record MsgJson : Type := mkMsgJson { msg_type : string; msg_content : string }.

Module ChatStore.

Definition timestamp : Type := Z.

(** A row of the [chats] table.  The two time columns are optional in the
    schema; [None] is SQL NULL. *)
Record ChatRow : Type := mkChatRow {
  username : string;
  chat_name : string;
  messages : list MsgJson;
  created_at : option timestamp;
  updated_at : option timestamp
}.

(** What a ConversationManager's Supabase client sees.
    [faults] is the outcome of the coming [.execute()] calls, one entry per
    call, [true] for a call that raises; calls past the end succeed.
    [ts_columns] tells whether the table has the [created_at]/[updated_at]
    columns.  [clock] is what [datetime.datetime.now()] returns next. *)
Record t : Type := mk {
  chats : list ChatRow;
  faults : list bool;
  ts_columns : bool;
  clock : timestamp
}.

Definition with_chats (rows : list ChatRow) (s : t) : t :=
  mk rows (faults s) (ts_columns s) (clock s).

(** [datetime.datetime.now()]: reads the clock, which then moves on. *)
Definition now : M t timestamp :=
  λ s, (Ok (clock s), mk (chats s) (faults s) (ts_columns s) (clock s + 1)).

(** One [.execute()].  [uses_ts] says that the request names a time column.
    [q] is the request's effect on the table and its [response.data]. *)
Definition execute {A} (uses_ts : bool) (q : list ChatRow → A * list ChatRow)
  : M t A :=
  λ s,
    let '(fault, rest) :=
      match faults s with
      | [] => (false, [])
      | f :: fs => (f, fs)
      end in
    let s0 := mk (chats s) rest (ts_columns s) (clock s) in
    if fault then (Raise StoreError, s0)
    else if uses_ts && negb (ts_columns s) then (Raise MissingColumn, s0)
    else let '(a, rows) := q (chats s) in (Ok a, with_chats rows s0).

(** [.eq("username", u).eq("chat_name", x)] *)
Definition matches (u x : string) (r : ChatRow) : Prop :=
  username r = u ∧ chat_name r = x.

#[global] Instance matches_dec u x r : Decision (matches u x r).
Proof. unfold matches. apply _. Defined.

(** [.select(...).eq("username", u).eq("chat_name", x).execute()] *)
Definition select_chat (u x : string) : M t (list ChatRow) :=
  execute false (λ rows, (filter (matches u x) rows, rows)).

(** Modelled from the spec: the store's [upsert] is "insert-or-update keyed
    on a uniqueness criterion (here, owner + chat name)" (glossary, and
    section 4.3 "full-replace upsert ... Creates the chat row if absent").
    Columns the request does not name keep their value in an updated row
    and are NULL in an inserted one. *)
Definition upsert_row (u x : string) (msgs : list MsgJson)
    (upd : option timestamp) (r : ChatRow) : ChatRow :=
  if decide (matches u x r)
  then mkChatRow (username r) (chat_name r) msgs (created_at r)
         (match upd with Some ts => Some ts | None => updated_at r end)
  else r.

Definition upsert_rows (u x : string) (msgs : list MsgJson)
    (upd : option timestamp) (rows : list ChatRow) : list ChatRow :=
  match filter (matches u x) rows with
  | [] => rows ++ [mkChatRow u x msgs None upd]
  | _ :: _ => upsert_row u x msgs upd <$> rows
  end.

Definition upsert (u x : string) (msgs : list MsgJson) (upd : option timestamp)
  : M t unit :=
  execute (bool_decide (is_Some upd)) (λ rows, (tt, upsert_rows u x msgs upd rows)).

(** [.insert({...}).execute()]: the table has no uniqueness constraint of
    its own (section 4.3), the row is appended. *)
Definition insert (r : ChatRow) : M t unit :=
  execute (bool_decide (is_Some (created_at r) ∨ is_Some (updated_at r)))
    (λ rows, (tt, rows ++ [r])).

(** [.update({"chat_name": new, ["updated_at": ts]}).eq(...).eq(...).execute()] *)
Definition update_row (u old new : string) (upd : option timestamp)
    (r : ChatRow) : ChatRow :=
  if decide (matches u old r)
  then mkChatRow (username r) new (messages r) (created_at r)
         (match upd with Some ts => Some ts | None => updated_at r end)
  else r.

Definition update_name (u old new : string) (upd : option timestamp) : M t unit :=
  execute (bool_decide (is_Some upd))
    (λ rows, (tt, update_row u old new upd <$> rows)).

(** [.delete().eq("username", u).eq("chat_name", x).execute()] *)
Definition delete (u x : string) : M t unit :=
  execute false (λ rows, (tt, filter (λ r, ¬ matches u x r) rows)).

(** [.order("updated_at", desc=True)]: descending, NULLs first (the
    PostgreSQL default for DESC), rows with equal keys in table order. *)
Definition goes_before (a b : option timestamp) : bool :=
  match a, b with
  | None, _ => true
  | Some _, None => false
  | Some x, Some y => bool_decide (y ≤ x)
  end.

Definition order_updated_desc (rows : list ChatRow) : list ChatRow :=
  sort_by (λ a b, goes_before (updated_at a) (updated_at b)) rows.

(** [.select("chat_name, updated_at").eq("username", u).order(...).execute()] *)
Definition select_user_ordered (u : string) : M t (list ChatRow) :=
  execute true
    (λ rows, (order_updated_desc (filter (λ r, username r = u) rows), rows)).

(** [.select("chat_name").eq("username", u).execute()] *)
Definition select_user (u : string) : M t (list ChatRow) :=
  execute false (λ rows, (filter (λ r, username r = u) rows, rows)).

End ChatStore.

(** ** components/conversation_manager.py *)

Module ConversationManager.
Import ChatStore.

(** The object state: [self.username] ([self.table_name] is the constant
    "chats", the table of [ChatStore]). *)
Record t : Type := mk { self_username : string }.

(** [{'type': 'human', ...} if isinstance(msg, HumanMessage) else {'type': 'ai', ...}] *)
Definition to_json (m : Message) : MsgJson :=
  if is_human m then mkMsgJson "human" (content m)
  else mkMsgJson "ai" (content m).

(** [HumanMessage(...) if msg['type'] == 'human' else AIMessage(...)] *)
Definition of_json (j : MsgJson) : Message :=
  if decide (msg_type j = "human") then HumanMessage (msg_content j)
  else AIMessage (msg_content j).

Definition load_history (self : t) (chat : string)
  : M ChatStore.t (list Message) :=
  try_except
    (data ← select_chat (self_username self) chat;
     match data with
     | row :: _ => ret (of_json <$> messages row)
     | [] => ret []
     end)
    (λ _, ret []).

Definition save_history (self : t) (chat : string) (history : list Message)
  : M ChatStore.t unit :=
  try_except
    (let history_json := to_json <$> history in
     try_except
       (ts ← now;
        upsert (self_username self) chat history_json (Some ts))
       (λ _, upsert (self_username self) chat history_json None))
    (λ _, ret tt).

Definition get_available_chats (self : t) : M ChatStore.t (list string) :=
  try_except
    (data ← try_except
              (select_user_ordered (self_username self))
              (λ _, select_user (self_username self));
     ret (chat_name <$> data))
    (λ _, ret []).

Definition rename_chat (self : t) (old_name new_name : string)
  : M ChatStore.t bool :=
  if bool_decide (new_name = "") || bool_decide (new_name = old_name)
  then ret false
  else
    try_except
      (existing ← select_chat (self_username self) new_name;
       match existing with
       | _ :: _ => ret false
       | [] =>
           try_except
             (ts ← now;
              update_name (self_username self) old_name new_name (Some ts))
             (λ _, update_name (self_username self) old_name new_name None);;
           ret true
       end)
      (λ _, ret false).

Definition delete_chat (self : t) (chat : string) : M ChatStore.t unit :=
  try_except (delete (self_username self) chat) (λ _, ret tt).

Definition create_new_chat (self : t) (chat : string) : M ChatStore.t bool :=
  try_except
    (existing ← select_chat (self_username self) chat;
     match existing with
     | _ :: _ => ret false
     | [] =>
         try_except
           (c ← now;
            u ← now;
            insert (mkChatRow (self_username self) chat [] (Some c) (Some u)))
           (λ _, insert (mkChatRow (self_username self) chat [] None None));;
         ret true
     end)
    (λ _, ret false).

(** The number of chats the user sees: [len(get_available_chats())]. *)
Definition chat_count (self : t) (s : ChatStore.t) : nat :=
  match (get_available_chats self s).1 with
  | Ok names => length names
  | Raise _ => O
  end.

End ConversationManager.

(** ** Documents (langchain Document) and their JSON metadata *)

(** A JSON value as it occurs in chunk metadata: loaders write strings
    ([source]) and numbers ([page]); [JNull] is JSON null / Python None. *)
Inductive JVal : Type :=
  | JStr (s : string)
  | JNum (n : Z)
  | JNull.

#[global] Instance JVal_eq_dec : EqDecision JVal.
Proof. solve_decision. Defined.

(** Python truthiness, as in [if source:]. *)
Definition truthy (v : JVal) : bool :=
  match v with
  | JStr s => negb (bool_decide (s = ""))
  | JNum n => negb (bool_decide (n = 0))
  | JNull => false
  end.

(** [metadata] is a dict, or None. *)
Record Document : Type := mkDocument {
  page_content : string;
  metadata : option (gmap string JVal)
}.

(** ** Paths and file names (posixpath, pathlib.PurePosixPath) *)

Module Path.

Definition is_slash (c : ascii) : bool := bool_decide (c = "/"%char).
Definition is_dot (c : ascii) : bool := bool_decide (c = "."%char).

(** [p.split('/')] *)
Fixpoint split_slash (p : string) : list string :=
  match p with
  | EmptyString => [""]
  | String c rest =>
      if is_slash c then "" :: split_slash rest
      else match split_slash rest with
           | [] => [String c ""]
           | h :: t => String c h :: t
           end
  end.

(** [os.path.basename(p)]: what follows the last slash. *)
Definition basename (p : string) : string := List.last (split_slash p) "".

(** The parts of a relative [Path(p)]: empty and "." components are dropped. *)
Definition parts (p : string) : list string :=
  filter (λ s, s ≠ "" ∧ s ≠ ".") (split_slash p).

(** [str(Path(p))] for a relative path *)
Fixpoint join (ps : list string) : string :=
  match ps with
  | [] => ""
  | [a] => a
  | a :: rest => a +:+ "/" +:+ join rest
  end.

Definition to_str (p : string) : string :=
  match parts p with [] => "." | ps => join ps end.

(** [Path(p).name] *)
Definition name (p : string) : string := List.last (parts p) "".

(** [s.rfind('.')] *)
Fixpoint rfind_dot (s : string) : option nat :=
  match s with
  | EmptyString => None
  | String c rest =>
      match rfind_dot rest with
      | Some i => Some (S i)
      | None => if is_dot c then Some O else None
      end
  end.

(** [Path(p).suffix]: [name[i:]] for [i = name.rfind('.')] when
    [0 < i < len(name) - 1], else the empty string. *)
Definition suffix (p : string) : string :=
  let n := name p in
  match rfind_dot n with
  | Some i =>
      if bool_decide (0 < i ∧ i < String.length n - 1)%nat
      then String.substring i (String.length n - i) n
      else ""
  | None => ""
  end.

(** [s.lower()] on the ASCII letters (no other character lowers to a
    letter of "pdf", "txt" or "docx"). *)
Definition lower_char (c : ascii) : ascii :=
  let n := Ascii.nat_of_ascii c in
  if bool_decide (65 ≤ n ∧ n ≤ 90)%nat then Ascii.ascii_of_nat (n + 32) else c.

Fixpoint lower (s : string) : string :=
  match s with
  | EmptyString => EmptyString
  | String c rest => String (lower_char c) (lower rest)
  end.

End Path.

(** ** Collaborators

    The embedding model, the text splitter, the document loaders and the
    language model are outside the repository; the code is modelled over any
    implementation of them. *)

(** [GoogleGenerativeAIEmbeddings] and the similarity order of the vector
    index: [nearer q a b] holds when [a] is at least as similar to [q] as
    [b] is. *)
Class Embeddings : Type := {
  Vec : Type;
  embed : string → Vec;
  nearer : Vec → Vec → Vec → bool
}.

(** [RecursiveCharacterTextSplitter(chunk_size, chunk_overlap).split_documents] *)
Class TextSplitter : Type := {
  split_documents : nat → nat → list Document → list Document
}.

Inductive Loader : Type := PyPDFLoader | TextLoader | Docx2txtLoader.

(** [loader.load()] on a file with the given path and bytes; [None] when the
    loader raises. *)
Class Loaders : Type := {
  extract : Loader → string → list Byte.byte → option (list Document)
}.

(** The language model behind the answering chain:
    [generate context history question]; [None] when the call fails. *)
Class LanguageModel : Type := {
  generate : string → list Message → string → option string
}.

(** ** The [documents] table *)

Module DocStore.
Section store.
Context `{Embeddings}.

(** A row: chunk text, JSON metadata, embedding.  (A row whose metadata
    is NULL matches no [contains] filter and is left out.) *)
Record DocRow : Type := mkDocRow {
  row_content : string;
  row_metadata : gmap string JVal;
  row_embedding : Vec
}.

(** [faults] as in [ChatStore.t]. *)
Record t : Type := mk {
  documents : list DocRow;
  faults : list bool
}.

Definition execute {A} (q : list DocRow → A * list DocRow) : M t A :=
  λ s,
    let '(fault, rest) :=
      match faults s with
      | [] => (false, [])
      | f :: fs => (f, fs)
      end in
    if fault then (Raise StoreError, mk (documents s) rest)
    else let '(a, rows) := q (documents s) in (Ok a, mk rows rest).

(** JSON containment, [metadata @> flt], for a filter of scalar entries. *)
Definition contains (flt : gmap string JVal) (r : DocRow) : Prop :=
  map_Forall (λ k v, row_metadata r !! k = Some v) flt.

#[global] Instance contains_dec flt r : Decision (contains flt r).
Proof. unfold contains. apply _. Defined.

Definition to_document (r : DocRow) : Document :=
  mkDocument (row_content r) (Some (row_metadata r)).

(** [SupabaseVectorStore.add_documents(splits)]: embeds each chunk's text
    and writes one row per chunk.  With no chunk there is nothing to write
    and the store is not called; the chunks otherwise go out in one call
    (the client cuts a list longer than its batch size into several, which
    is left out here). *)
Definition add_rows (splits : list Document) : M t unit :=
  match splits with
  | [] => ret tt
  | _ :: _ =>
      execute (λ rows,
        (tt, rows ++ ((λ d, mkDocRow (page_content d) (default ∅ (metadata d))
                                     (embed (page_content d))) <$> splits)))
  end.

(** Modelled from the spec: the retriever's search (langchain's
    SupabaseVectorStore over the [match_documents] query) "embeds query,
    performs a nearest-neighbor similarity search restricted to rows whose
    metadata identifies owner, returns up to k chunks ordered by descending
    similarity" (section 4.2). *)
Definition top_k (query : string) (k : nat) (flt : gmap string JVal)
    (rows : list DocRow) : list DocRow :=
  take k (sort_by (λ a b, nearer (embed query) (row_embedding a) (row_embedding b))
            (filter (contains flt) rows)).

Definition similarity_search (query : string) (k : nat)
    (flt : gmap string JVal) : M t (list Document) :=
  execute (λ rows, (to_document <$> top_k query k flt rows, rows)).

(** [.select("metadata").contains("metadata", flt).execute()] *)
Definition select_metadata (flt : gmap string JVal)
  : M t (list (gmap string JVal)) :=
  execute (λ rows, (row_metadata <$> filter (contains flt) rows, rows)).

End store.
End DocStore.

(** ** components/vector_store.py *)

Module VectorStoreManager.
Import DocStore.
Section manager.
Context `{Embeddings} `{TextSplitter}.

Record t : Type := mk { self_username : string }.

(** The loop of [add_documents]:
    [if split.metadata is None: split.metadata = {}] then
    [split.metadata['username'] = self.username]. *)
Definition tag (self : t) (split : Document) : Document :=
  mkDocument (page_content split)
    (Some (<["username" := JStr (self_username self)]> (default ∅ (metadata split)))).

Definition add_documents (self : t) (docs : list Document) : M DocStore.t unit :=
  match docs with
  | [] => mret tt
  | _ :: _ =>
      let splits := split_documents 1000 200 docs in
      let splits := tag self <$> splits in
      add_rows splits
  end.

(** [os.path.basename(source)]; raises on anything but a string. *)
Definition basename_of (source : JVal) : M DocStore.t string :=
  match source with
  | JStr p => mret (Path.basename p)
  | _ => raise TypeError
  end.

(** The [for item in response.data] loop, [sources] being the set built
    so far. *)
Fixpoint collect_sources (self : t) (data : list (gmap string JVal))
    (sources : gset string) : M DocStore.t (gset string) :=
  match data with
  | [] => mret sources
  | metadata :: rest =>
      if decide (metadata !! "username" = Some (JStr (self_username self)))
      then
        match metadata !! "source" with
        | Some source =>
            if truthy source
            then b ← basename_of source;
                 collect_sources self rest ({[ b ]} ∪ sources)
            else collect_sources self rest sources
        | None => collect_sources self rest sources
        end
      else collect_sources self rest sources
  end.

(** Python's order on strings *)
Definition str_le (a b : string) : Prop := String.leb a b = true.

#[global] Instance str_le_dec a b : Decision (str_le a b).
Proof. unfold str_le. apply _. Defined.

(** [sorted(list(sources))] *)
Definition sorted_list (sources : gset string) : list string :=
  merge_sort str_le (elements sources).

Definition get_document_sources (self : t) : M DocStore.t (list string) :=
  try_except
    (data ← select_metadata {[ "username" := JStr (self_username self) ]};
     match data with
     | _ :: _ =>
         sources ← collect_sources self data ∅;
         mret (sorted_list sources)
     | [] => mret []
     end)
    (λ _, mret []).

End manager.
End VectorStoreManager.

(** ** The working directory, where uploads are materialised *)

Module Disk.

(** [files] maps a path to the bytes stored there; [faults] gives the
    outcome of the coming file-system and loader calls, as in
    [ChatStore.t]. *)
Record t : Type := mk {
  files : gmap string (list Byte.byte);
  faults : list bool
}.

Definition io {A} (op : gmap string (list Byte.byte) → result A * gmap string (list Byte.byte))
  : M t A :=
  λ d,
    let '(fault, rest) :=
      match faults d with
      | [] => (false, [])
      | f :: fs => (f, fs)
      end in
    if fault then (Raise IOError, mk (files d) rest)
    else let '(r, fs') := op (files d) in (r, mk fs' rest).

(** [with open(path, "wb") as f: f.write(buffer)] *)
Definition write_file (path : string) (buffer : list Byte.byte) : M t unit :=
  io (λ fs, (Ok tt, <[path := buffer]> fs)).

(** [os.remove(path)] *)
Definition remove (path : string) : M t unit :=
  io (λ fs, match fs !! path with
            | Some _ => (Ok tt, delete path fs)
            | None => (Raise IOError, fs)
            end).

(** [loader.load()] for a loader built on [path] *)
Definition load `{Loaders} (loader : Loader) (path : string) : M t (list Document) :=
  io (λ fs, match fs !! path with
            | Some bytes =>
                match extract loader path bytes with
                | Some docs => (Ok docs, fs)
                | None => (Raise LoaderError, fs)
                end
            | None => (Raise IOError, fs)
            end).

End Disk.

(** ** components/document_processor.py *)

Module DocumentProcessor.
Section processor.
Context `{Loaders}.

(** streamlit's UploadedFile: [file.name] and [file.getbuffer()]. *)
Record UploadedFile : Type := mkUploadedFile {
  name : string;
  getbuffer : list Byte.byte
}.

(** The [if ... elif ... else] on the lowered suffix; [None] is the
    unsupported branch. *)
Definition loader_for (file_extension : string) : option Loader :=
  if decide (file_extension = ".pdf") then Some PyPDFLoader
  else if decide (file_extension = ".txt") then Some TextLoader
  else if decide (file_extension = ".docx") then Some Docx2txtLoader
  else None.

(** The body of the [for file in uploaded_files] loop, [docs] being the
    list built so far. *)
Fixpoint process_loop (uploaded_files : list UploadedFile) (docs : list Document)
  : M Disk.t (list Document) :=
  match uploaded_files with
  | [] => mret docs
  | file :: rest =>
      let temp_filepath := "./temp_" +:+ name file in
      Disk.write_file (Path.to_str temp_filepath) (getbuffer file);;
      let file_extension := Path.lower (Path.suffix temp_filepath) in
      match loader_for file_extension with
      | Some loader =>
          loaded ← Disk.load loader (Path.to_str temp_filepath);
          Disk.remove (Path.to_str temp_filepath);;
          process_loop rest (docs ++ loaded)
      | None =>
          Disk.remove (Path.to_str temp_filepath);;
          process_loop rest docs
      end
  end.

Definition process_uploaded_files (uploaded_files : list UploadedFile)
  : M Disk.t (list Document) :=
  process_loop uploaded_files [].

End processor.
End DocumentProcessor.

(** ** app.py: the chat turn of [RAGAgentUI._render_chat_interface] *)

Module RAGAgentUI.
Section ui.
Context `{Embeddings} `{LanguageModel}.

(** [st.session_state] and the two stores the managers talk to. *)
Record t : Type := mk {
  username : string;
  current_chat : string;
  messages : list Message;
  chat_store : ChatStore.t;
  doc_store : DocStore.t
}.

Definition get_messages : M t (list Message) := λ s, (Ok (messages s), s).

(** [st.session_state.messages.append(m)] *)
Definition append_message (m : Message) : M t unit :=
  λ s, (Ok tt, mk (username s) (current_chat s) (messages s ++ [m])
                  (chat_store s) (doc_store s)).

Definition on_chats {A} (m : M ChatStore.t A) : M t A :=
  λ s, let '(r, c) := m (chat_store s) in
       (r, mk (username s) (current_chat s) (messages s) c (doc_store s)).

Definition on_docs {A} (m : M DocStore.t A) : M t A :=
  λ s, let '(r, d) := m (doc_store s) in
       (r, mk (username s) (current_chat s) (messages s) (chat_store s) d).

(** [vector_store.as_retriever(search_kwargs={'filter': {'username': u}, 'k': 5})] *)
Definition as_retriever (user : string) (query : string) : M t (list Document) :=
  on_docs (DocStore.similarity_search query 5 {[ "username" := JStr user ]}).

(** Modelled from the spec: the glossary's grounding context, "the
    concatenation of retrieved chunks". *)
Definition grounding_context (chunks : list Document) : string :=
  String.concat "" (page_content <$> chunks).

(** Modelled from the spec: components/llm_handler.py
    ([LLMHandler.get_conversational_rag_chain]) is not among the sources.
    Section 4.4: retrieve for the question, "build a grounding context from
    the retrieved chunks", "invoke the language-model collaborator with
    {context, history, question}", "return its generated answer text"; a
    failing model is surfaced. *)
Definition get_conversational_rag_chain
    (retriever : string → M t (list Document))
    (input : string) (chat_history : list Message) : M t string :=
  chunks ← retriever input;
  match generate (grounding_context chunks) chat_history input with
  | Some answer => mret answer
  | None => raise ModelError
  end.

(** The body of [if prompt := st.chat_input(...)], lines 192-216. *)
Definition on_prompt (prompt : string) : M t string :=
  append_message (HumanMessage prompt);;
  user ← (λ s, (Ok (username s), s));
  let retriever := as_retriever user in
  let chain := get_conversational_rag_chain retriever in
  history ← get_messages;
  answer ← chain prompt (removelast history);
  append_message (AIMessage answer);;
  chat ← (λ s, (Ok (current_chat s), s));
  history ← get_messages;
  on_chats (ConversationManager.save_history
              (ConversationManager.mk user) chat history);;
  mret answer.

End ui.
End RAGAgentUI.

(** ** Vocabulary of the properties *)

(** The chunk's metadata names [u] as its owner. *)
Definition owned_by (u : string) (chunk : Document) : Prop :=
  ∃ m, metadata chunk = Some m ∧ m !! "username" = Some (JStr u).

(** The rows of the [documents] table whose metadata names [u] as owner. *)
Definition rows_of `{Embeddings} (u : string) (d : DocStore.t) : list DocStore.DocRow :=
  filter (DocStore.contains {[ "username" := JStr u ]}) (DocStore.documents d).

(** The row [add_documents] writes for a chunk the splitter returned. *)
Definition row_for `{Embeddings} (u : string) (chunk : Document) : DocStore.DocRow :=
  DocStore.mkDocRow (page_content chunk)
    (<["username" := JStr u]> (default ∅ (metadata chunk)))
    (embed (page_content chunk)).

(** "A failure of the store is surfaced", read for [save_history]: when both
    of its upsert attempts raise, the call does not end as a successful
    one does. *)
Definition save_surfaces_failure : Prop :=
  ∀ self x history s fs,
    ChatStore.faults s = true :: true :: fs →
    (ConversationManager.save_history self x history s).1 ≠ Ok tt.

(** "Rename updates only the name field": the table after a successful
    rename is the old one with the name rewritten in the rows of the chat
    and nothing else touched. *)
Definition rename_rewrites_name_only : Prop :=
  ∀ self old new s,
    ChatStore.faults s = [] → new ≠ "" → new ≠ old →
    filter (ChatStore.matches (ConversationManager.self_username self) new)
      (ChatStore.chats s) = [] →
    ChatStore.chats (ConversationManager.rename_chat self old new s).2
      = ChatStore.update_row (ConversationManager.self_username self) old new None
          <$> ChatStore.chats s.

(** What one uploaded file contributes when all goes well: [None] for an
    unsupported extension or a loader that raises. *)
Definition extracted `{Loaders} (file : DocumentProcessor.UploadedFile)
    : option (list Document) :=
  let temp_filepath := "./temp_" +:+ DocumentProcessor.name file in
  loader ← DocumentProcessor.loader_for (Path.lower (Path.suffix temp_filepath));
  extract loader (Path.to_str temp_filepath) (DocumentProcessor.getbuffer file).

Definition supported (file : DocumentProcessor.UploadedFile) : Prop :=
  is_Some (DocumentProcessor.loader_for
             (Path.lower (Path.suffix ("./temp_" +:+ DocumentProcessor.name file)))).

(** [file_extension] in [process_uploaded_files]: the lowered suffix of the
    temporary path. *)
Definition file_extension (file : DocumentProcessor.UploadedFile) : string :=
  Path.lower (Path.suffix ("./temp_" +:+ DocumentProcessor.name file)).

(** The file-system and loader calls of a run over [files] that nothing
    stops: write, load and remove for a supported file, write and remove
    for any other. *)
Definition fs_calls (files : list DocumentProcessor.UploadedFile) : nat :=
  sum_list ((λ file, if decide (supported file) then 3%nat else 2%nat) <$> files).

(** "A per-file failure does not abort the batch": whatever the loaders do,
    the batch returns the documents of the files that could be read. *)
Definition batch_survives_failures `{Loaders} : Prop :=
  ∀ files d,
    Disk.faults d = [] →
    (DocumentProcessor.process_uploaded_files files d).1
      = Ok (mjoin (omap extracted files)).

(** ** Sample data *)

Module Sample.

Definition alice : string := "alice@example.com".
Definition bob : string := "bob@example.com".

Definition me : ConversationManager.t := ConversationManager.mk alice.
Definition my_documents : VectorStoreManager.t := VectorStoreManager.mk alice.

Definition greeting : list Message := [HumanMessage "hi"; AIMessage "hello"].

(** A table with timestamps holding one chat of alice's, "X". *)
Definition one_chat : ChatStore.t :=
  ChatStore.mk
    [ChatStore.mkChatRow alice "X" (ConversationManager.to_json <$> greeting)
       (Some 1) (Some 2)]
    [] true 10.

Definition no_chats : ChatStore.t := ChatStore.mk [] [] true 10.

(** The same table while the store is down for the next two calls. *)
Definition store_down : ChatStore.t :=
  ChatStore.mk (ChatStore.chats one_chat) [true; true] true 10.

(** Embeddings: the text's length; nearer means closer in length. *)
#[export] Instance by_length : Embeddings := {|
  Vec := Z;
  embed := λ text, Z.of_nat (String.length text);
  nearer := λ q a b, bool_decide (Z.abs (a - q) ≤ Z.abs (b - q))
|}.

(** A splitter that leaves every document whole. *)
#[export] Instance whole : TextSplitter := {|
  split_documents := λ _ _ docs, docs
|}.

(** Python's strict UTF-8: [need] continuation bytes are still due, the
    next of them within [lo..hi]. *)
Fixpoint utf8_from (need : nat) (lo hi : N) (bytes : list Byte.byte) : bool :=
  match bytes with
  | [] => bool_decide (need = 0%nat)
  | b :: rest =>
      let n := Byte.to_N b in
      match need with
      | O =>
          if (n <? 0x80)%N then utf8_from 0 0x80 0xBF rest
          else if (0xC2 <=? n)%N && (n <=? 0xDF)%N then utf8_from 1 0x80 0xBF rest
          else if (n =? 0xE0)%N then utf8_from 2 0xA0 0xBF rest
          else if (n =? 0xED)%N then utf8_from 2 0x80 0x9F rest
          else if (0xE1 <=? n)%N && (n <=? 0xEF)%N then utf8_from 2 0x80 0xBF rest
          else if (n =? 0xF0)%N then utf8_from 3 0x90 0xBF rest
          else if (n =? 0xF4)%N then utf8_from 3 0x80 0x8F rest
          else if (0xF1 <=? n)%N && (n <=? 0xF3)%N then utf8_from 3 0x80 0xBF rest
          else false
      | S need' =>
          (lo <=? n)%N && (n <=? hi)%N && utf8_from need' 0x80 0xBF rest
      end
  end.

(** Text mode's universal newlines: CR LF and CR are read as LF. *)
Fixpoint universal_newlines (s : string) : string :=
  match s with
  | EmptyString => EmptyString
  | String "013" rest =>
      match rest with
      | String "010" rest' => String "010" (universal_newlines rest')
      | _ => String "010" (universal_newlines rest)
      end
  | String c rest => String c (universal_newlines rest)
  end.

(** Loaders for the examples, which hold text files only.  [TextLoader]
    reads its file as open() does in text mode under a UTF-8 locale and
    gives one document, the text with the path as its source; it raises on
    bytes that are not UTF-8 (an empty file is read, as the empty text).
    The examples hold no PDF or Word file: the other two loaders raise on
    what is none, and here they raise throughout. *)
#[export] Instance text_only : Loaders := {|
  extract := λ loader path bytes,
    match loader with
    | TextLoader =>
        if utf8_from 0 0x80 0xBF bytes
        then Some [mkDocument (universal_newlines (String.string_of_list_byte bytes))
                     (Some {[ "source" := JStr path ]})]
        else None
    | PyPDFLoader | Docx2txtLoader => None
    end
|}.

(** A model that repeats the question after the context. *)
#[export] Instance echo : LanguageModel := {|
  generate := λ context _ question, Some (context +:+ "?" +:+ question)
|}.

(** Both users hold chunks of a file called temp_notes.txt. *)
Definition shared_name : DocStore.t :=
  DocStore.mk
    [row_for alice (mkDocument "alice's notes" (Some {[ "source" := JStr "temp_notes.txt" ]}));
     row_for bob (mkDocument "bob's notes" (Some {[ "source" := JStr "temp_notes.txt" ]}));
     row_for bob (mkDocument "bob's plan" (Some {[ "source" := JStr "dir/temp_plan.txt" ]}))]
    [].

(** The same table while the store is down for the next call. *)
Definition shelf_down : DocStore.t :=
  DocStore.mk (DocStore.documents shared_name) [true].

Definition csv_file : DocumentProcessor.UploadedFile :=
  DocumentProcessor.mkUploadedFile "table.csv" [Byte.x61].
Definition txt_file : DocumentProcessor.UploadedFile :=
  DocumentProcessor.mkUploadedFile "notes.txt" [Byte.x62].
Definition empty_txt : DocumentProcessor.UploadedFile :=
  DocumentProcessor.mkUploadedFile "blank.txt" [].
(** A text file that is not UTF-8. *)
Definition garbled_txt : DocumentProcessor.UploadedFile :=
  DocumentProcessor.mkUploadedFile "garbled.txt" [Byte.x62; Byte.xff].

Definition disk : Disk.t := Disk.mk ∅ [].
(** A working directory whose fourth call fails. *)
Definition flaky_disk : Disk.t := Disk.mk ∅ [false; false; false; true].

Definition session : RAGAgentUI.t :=
  RAGAgentUI.mk alice "X" greeting one_chat shared_name.

End Sample.

(** ** Vocabulary of the further properties *)

(** The string holds no slash: a bare file name. *)
Fixpoint slash_free (s : string) : bool :=
  match s with
  | EmptyString => true
  | String c rest => negb (Path.is_slash c) && slash_free rest
  end.

(** A [source] entry the listing loop can take: falsy (skipped) or a
    string.  Any other value makes [os.path.basename] raise. *)
Definition listable (m : gmap string JVal) : Prop :=
  ∀ v, m !! "source" = Some v → truthy v = true → ∃ p, v = JStr p.

(** ** More sample data *)

Module Scenes.
Import Sample.

(** Alice has two chats, stamped 2 and 5, and bob one with alice's name for
  it; the clock shows 10. *)
Definition two_users : ChatStore.t :=
ChatStore.mk
  [ChatStore.mkChatRow alice "X" (ConversationManager.to_json <$> greeting)
     (Some 1) (Some 2);
   ChatStore.mkChatRow bob "X" [] None (Some 4);
   ChatStore.mkChatRow alice "Z" [] (Some 3) (Some 5)]
  [] true 10.

(** The table of [shared_name] with one more chunk of alice's, whose
  source is a number. *)
Definition numbered_source : DocStore.t :=
DocStore.mk
  (DocStore.documents shared_name
     ++ [row_for alice (mkDocument "page" (Some {[ "source" := JNum 7 ]}))])
  [].

Definition plan : list Document :=
[mkDocument "alice's plan" (Some {[ "source" := JStr "uploads/temp_plan.txt" ]})].

(** A working directory that already holds a file under the temporary
    name of notes.txt, and another file. *)
Definition busy_disk : Disk.t :=
  Disk.mk {[ "temp_notes.txt" := [Byte.x63]; "keep.me" := [Byte.x64] ]} [].

End Scenes.

(** The string holds no dot. *)
Fixpoint dot_free (s : string) : bool :=
  match s with
  | EmptyString => true
  | String c rest => negb (Path.is_dot c) && dot_free rest
  end.

(** The path under which [process_uploaded_files] materialises an upload. *)
Definition temp_path (file : DocumentProcessor.UploadedFile) : string :=
  Path.to_str ("./temp_" +:+ DocumentProcessor.name file).

(** ** app.py: the handlers of the sidebar and of the chat page

    Each block of [_render_sidebar] and [_render_chat_interface] that
    reacts to a widget is a computation on the session state and the two
    stores; the widget's value is its argument.  [st.rerun()] ends the
    block. *)

From stdpp Require pretty.

(** Python's [str.strip()]. *)
Class Builtins : Type := { strip : string → string }.

Module Handlers.
Section handlers.
Context `{Embeddings} `{LanguageModel} `{Builtins}.

(** config/settings.py *)
Definition DEFAULT_CHAT_NAME : string := "New Chat".

(** [st.session_state]: the fields of [RAGAgentUI.t] and [prev_chat]. *)
Record t : Type := mk {
ui : RAGAgentUI.t;
prev_chat : string
}.

Definition get : M t t := λ s, (Ok s, s).

(** Assignments to [current_chat], [messages] and [prev_chat]. *)
Definition put_session (current : string) (history : list Message) (prev : string)
: M t unit :=
λ s, (Ok tt,
      mk (RAGAgentUI.mk (RAGAgentUI.username (ui s)) current history
            (RAGAgentUI.chat_store (ui s)) (RAGAgentUI.doc_store (ui s)))
         prev).

(** A call on [conv_manager], the ConversationManager that [run] builds
  for [st.session_state.username]. *)
Definition with_conv {A} (call : ConversationManager.t → M ChatStore.t A) : M t A :=
λ s,
  let '(r, u) :=
    RAGAgentUI.on_chats
      (call (ConversationManager.mk (RAGAgentUI.username (ui s)))) (ui s) in
  (r, mk u (prev_chat s)).

(** Truthiness of a list and of a string. *)
Definition nonempty {A} (l : list A) : bool :=
match l with [] => false | _ :: _ => true end.

Definition nonblank (s : string) : bool := negb (bool_decide (s = "")).

(** Lines 160-167: load the chat when it is not the one loaded last. *)
Definition load_current_chat : M t unit :=
s ← get;
if bool_decide (prev_chat s ≠ RAGAgentUI.current_chat (ui s)) then
  (if nonblank (prev_chat s) && nonempty (RAGAgentUI.messages (ui s))
      && bool_decide (prev_chat s ≠ RAGAgentUI.current_chat (ui s))
   then with_conv (λ conv, ConversationManager.save_history conv
                             (prev_chat s) (RAGAgentUI.messages (ui s)))
   else mret tt);;
  history ← with_conv (λ conv, ConversationManager.load_history conv
                                 (RAGAgentUI.current_chat (ui s)));
  put_session (RAGAgentUI.current_chat (ui s)) history
    (RAGAgentUI.current_chat (ui s))
else mret tt.


(** Lines 179-184: the "Delete Chat" button. *)
Definition delete_current_chat : M t unit :=
s ← get;
with_conv (λ conv, ConversationManager.delete_chat conv
                     (RAGAgentUI.current_chat (ui s)));;
put_session DEFAULT_CHAT_NAME [] "".

(** Lines 101-105: [while new_chat_name in available_chats], with the loop
  variables [counter] and [new_chat_name]; [None] when [fuel] rounds were
  not enough. *)
Fixpoint unique_name (fuel : nat) (original_name : string) (counter : nat)
  (new_chat_name : string) (available_chats : list string) : option string :=
if bool_decide (new_chat_name ∈ available_chats) then
  match fuel with
  | O => None
  | S fuel' =>
      unique_name fuel' original_name (S counter)
        (original_name +:+ "_" +:+ pretty.pretty (S counter)) available_chats
  end
else Some new_chat_name.

(** The name the loop tests in round [counter]: the original name first,
    then the original name with "_2", "_3", ... *)
Definition candidate (original_name : string) (counter : nat) : string :=
  match counter with
  | 1%nat => original_name
  | _ => original_name +:+ "_" +:+ pretty.pretty counter
  end.

(** Lines 87-117: the "New Chat" button; [timestamp] is what
  [strftime("%m-%d_%H-%M-%S")] gave.  The loop is given as many rounds as
  there are chats; [None] when that was not enough. *)
Definition new_chat (timestamp : string) : M t (option bool) :=
available_chats ← with_conv ConversationManager.get_available_chats;
s ← get;
(if nonempty (RAGAgentUI.messages (ui s))
 then with_conv (λ conv, ConversationManager.save_history conv
                           (RAGAgentUI.current_chat (ui s))
                           (RAGAgentUI.messages (ui s)))
 else mret tt);;
let new_chat_name := "New Chat " +:+ timestamp in
match unique_name (length available_chats) new_chat_name 1 new_chat_name
        available_chats with
| None => mret None
| Some new_chat_name =>
    success ← with_conv (λ conv, ConversationManager.create_new_chat conv
                                   new_chat_name);
    if success : bool
    then put_session new_chat_name [] "";; mret (Some true)
    else mret (Some false)
end.

(** Lines 87 and 120-150: the chat selector returned [selected_chat].
  (After the membership test [available_chats.index] cannot raise, so the
  [except] branch is never entered.) *)
Definition select_chat (selected_chat : string) : M t unit :=
available_chats ← with_conv ConversationManager.get_available_chats;
s ← get;
match available_chats with
| first :: _ =>
    let current :=
      if bool_decide (RAGAgentUI.current_chat (ui s) ∈ available_chats)
      then RAGAgentUI.current_chat (ui s) else first in
    put_session current (RAGAgentUI.messages (ui s)) (prev_chat s);;
    if bool_decide (selected_chat ≠ current) then
      (if nonempty (RAGAgentUI.messages (ui s)) && nonblank current
       then with_conv (λ conv, ConversationManager.save_history conv current
                                 (RAGAgentUI.messages (ui s)))
       else mret tt);;
      put_session selected_chat (RAGAgentUI.messages (ui s)) ""
    else mret tt
| [] =>
    if nonblank (RAGAgentUI.current_chat (ui s)) then mret tt
    else put_session DEFAULT_CHAT_NAME (RAGAgentUI.messages (ui s)) (prev_chat s)
end.

End handlers.
End Handlers.

(** Sessions of the chat page, for the handlers at work. *)
Module Pages.
Import Sample Scenes.

Fixpoint lstrip (s : string) : string :=
  match s with
  | String c rest => if Ascii.is_space c then lstrip rest else s
  | EmptyString => EmptyString
  end.

(** [str.strip()] on ASCII blanks, tabs and line ends. *)
#[export] Instance ascii_strip : Builtins := {|
  strip := λ s, String.rev (lstrip (String.rev (lstrip s)))
|}.

(** Alice on her chat "X", loaded, with one message typed since. *)
Definition on_x : Handlers.t :=
  Handlers.mk
    (RAGAgentUI.mk alice "X" (greeting ++ [HumanMessage "more"]) two_users shared_name)
    "X".

(** Alice after a switch to "Z": the session still shows the messages of
    "X", its last loaded chat. *)
Definition switched : Handlers.t :=
  Handlers.mk (RAGAgentUI.mk alice "Z" greeting two_users shared_name) "X".

(** Alice with messages under a chat name the table does not hold. *)
Definition unsaved : Handlers.t :=
  Handlers.mk (RAGAgentUI.mk alice "Draft" greeting two_users shared_name) "Draft".

End Pages.

Section list_facts.
Context {A : Type}.

Lemma insert_by_Permutation (before : A → A → bool) x l :
  insert_by before x l ≡ₚ x :: l.
Proof.
  induction l as [|e l IH]; simpl; [done|].
  destruct (before x e); [done|].
  rewrite IH. apply Permutation_swap.
Qed.

Lemma sort_by_Permutation (before : A → A → bool) l : sort_by before l ≡ₚ l.
Proof.
  induction l as [|x l IH]; simpl; [done|].
  rewrite insert_by_Permutation. by rewrite IH.
Qed.

Lemma sort_by_length (before : A → A → bool) l :
  length (sort_by before l) = length l.
Proof. by rewrite sort_by_Permutation. Qed.

Lemma filter_nil_iff (P : A → Prop) `{∀ x, Decision (P x)} (l : list A) :
  filter P l = [] ↔ ∀ x, x ∈ l → ¬ P x.
Proof.
  split.
  - intros Hnil x Hx HP.
    assert (x ∈ filter P l) as Hin by (apply list_elem_of_filter; done).
    rewrite Hnil in Hin. by apply not_elem_of_nil in Hin.
  - intros Hall. induction l as [|y l IH]; [done|].
    rewrite filter_cons. destruct (decide (P y)) as [HP|_].
    + exfalso. eapply Hall; [|done]. left.
    + apply IH. intros x Hx. apply Hall. by right.
Qed.

Lemma filter_fmap_stable (P : A → Prop) `{∀ x, Decision (P x)} (f : A → A) (l : list A) :
  (∀ x, P (f x) ↔ P x) → filter P (f <$> l) = f <$> filter P l.
Proof.
  intros Hf. induction l as [|y l IH]; [done|].
  rewrite fmap_cons, !filter_cons.
  destruct (decide (P (f y))) as [H1|H1], (decide (P y)) as [H2|H2].
  - by rewrite fmap_cons, IH.
  - exfalso. by apply H2, Hf.
  - exfalso. by apply H1, Hf.
  - done.
Qed.

Lemma fmap_id_on (f : A → A) (l : list A) : (∀ x, x ∈ l → f x = x) → f <$> l = l.
Proof.
  intros Hf. induction l as [|y l IH]; [done|].
  rewrite fmap_cons, Hf by left. f_equal. apply IH. intros x Hx. apply Hf. by right.
Qed.

End list_facts.

(** * Properties *)

Section conversation_facts.
Import ChatStore ConversationManager.
Implicit Types (s : ChatStore.t) (self : ConversationManager.t).

Lemma execute_ok {A} uses_ts (q : list ChatRow → A * list ChatRow) s :
  faults s = [] → (uses_ts = true → ts_columns s = true) →
  execute uses_ts q s = (Ok (q (chats s)).1, with_chats (q (chats s)).2 s).
Proof.
  destruct s as [rows fs ts ck]; simpl; intros -> Hts.
  unfold execute, with_chats; simpl.
  destruct uses_ts; simpl.
  - rewrite Hts by done. simpl. by destruct (q rows).
  - by destruct (q rows).
Qed.

Lemma execute_missing {A} (q : list ChatRow → A * list ChatRow) s :
  faults s = [] → ts_columns s = false →
  execute true q s = (Raise MissingColumn, s).
Proof.
  destruct s as [rows fs ts ck]; simpl; intros -> ->. done.
Qed.

Lemma of_json_to_json (m : Message) : of_json (to_json m) = m.
Proof. by destruct m. Qed.

Lemma load_history_ok self x s :
  faults s = [] →
  load_history self x s =
    (Ok (match filter (matches (self_username self) x) (chats s) with
         | row :: _ => of_json <$> messages row
         | [] => []
         end), s).
Proof.
  intros Hs. unfold load_history, try_except, select_chat.
  unfold mbind, M_bind, bind. rewrite execute_ok by done. simpl.
  destruct s as [rows fs ts ck]; simpl in *; subst. unfold with_chats; simpl.
  by destruct (filter _ rows).
Qed.

(** What [save_history] leaves in a store that answers. *)
Lemma save_history_ok self x history s :
  faults s = [] →
  save_history self x history s =
    (Ok tt,
     ChatStore.mk (upsert_rows (self_username self) x (to_json <$> history)
           (if ts_columns s then Some (clock s) else None) (chats s))
        [] (ts_columns s) (clock s + 1)).
Proof.
  intros Hs. destruct s as [rows fs ts ck]; simpl in *; subst.
  unfold save_history, try_except, upsert, now.
  unfold mbind, M_bind, bind. simpl.
  destruct ts.
  - rewrite execute_ok by done. done.
  - rewrite execute_missing by done. rewrite execute_ok by done. done.
Qed.

End conversation_facts.

Section conversation_claims.
Import ChatStore ConversationManager.
Implicit Types (s : ChatStore.t) (self : ConversationManager.t).

Lemma upsert_row_matches u x msgs upd r :
  matches u x (upsert_row u x msgs upd r) ↔ matches u x r.
Proof. unfold upsert_row. by destruct (decide (matches u x r)). Qed.

Lemma filter_upsert_rows u x msgs upd rows :
  ∃ row rest,
    filter (matches u x) (upsert_rows u x msgs upd rows) = row :: rest
    ∧ messages row = msgs.
Proof.
  unfold upsert_rows.
  destruct (filter (matches u x) rows) as [|r rest] eqn:Hf.
  - rewrite filter_app, Hf. simpl. rewrite filter_cons.
    destruct (decide (matches u x (mkChatRow u x msgs None upd))) as [_|Hn].
    + by eexists _, _.
    + by destruct Hn.
  - rewrite filter_fmap_stable by apply upsert_row_matches.
    rewrite Hf, fmap_cons. eexists _, _. split; [done|].
    assert (r ∈ filter (matches u x) rows) as Hr by (rewrite Hf; left).
    apply list_elem_of_filter in Hr as [Hr _].
    unfold upsert_row. by destruct (decide (matches u x r)).
Qed.

(** C4.  On a store that answers, [save_history] followed by
    [load_history] of the same chat gives back the saved messages: the same
    list, hence the same length, order, roles and contents. *)
Theorem save_then_load self x msgs s :
  faults s = [] →
  (save_history self x msgs s).1 = Ok tt
  ∧ (load_history self x (save_history self x msgs s).2).1 = Ok msgs.
Proof.
  intros Hs. rewrite save_history_ok by done. split; [done|].
  rewrite load_history_ok by done. simpl.
  destruct (filter_upsert_rows (self_username self) x (to_json <$> msgs)
              (if ts_columns s then Some (clock s) else None) (chats s))
    as (row & rest & -> & ->).
  f_equal. rewrite <- list_fmap_compose.
  rewrite <- (list_fmap_id msgs) at 2.
  apply list_fmap_ext. intros _ m _. apply of_json_to_json.
Qed.

Lemma delete_chat_ok self x s :
  faults s = [] →
  delete_chat self x s =
    (Ok tt, with_chats (filter (λ r, ¬ matches (self_username self) x r) (chats s)) s).
Proof.
  intros Hs. unfold delete_chat, try_except, delete.
  by rewrite execute_ok.
Qed.

(** C9.  On a store that answers, [delete_chat] removes every row of the
    chat and nothing else, deleting again changes nothing and still
    returns normally, and [load_history] of the deleted chat is the empty
    list. *)
Theorem delete_then_load self x s :
  faults s = [] →
  let s1 := (delete_chat self x s).2 in
  (delete_chat self x s).1 = Ok tt
  ∧ chats s1 = filter (λ r, ¬ matches (self_username self) x r) (chats s)
  ∧ filter (matches (self_username self) x) (chats s1) = []
  ∧ delete_chat self x s1 = (Ok tt, s1)
  ∧ (load_history self x s1).1 = Ok [].
Proof.
  intros Hs s1. subst s1. rewrite delete_chat_ok by done. simpl.
  set (u := self_username self).
  assert (filter (matches u x) (filter (λ r, ¬ matches u x r) (chats s)) = [])
    as Hgone.
  { apply filter_nil_iff. intros r Hr. by apply list_elem_of_filter in Hr as [? _]. }
  split_and!; try done.
  - rewrite delete_chat_ok by done. simpl. f_equal.
    destruct s as [rows fs ts ck]; unfold with_chats; simpl. f_equal.
    apply list_filter_filter_l. done.
  - rewrite load_history_ok by done. simpl. fold u. by rewrite Hgone.
Qed.

End conversation_claims.

Section chat_names.
Import ChatStore ConversationManager.
Implicit Types (s : ChatStore.t) (self : ConversationManager.t).

Lemma get_available_chats_ok self s :
  faults s = [] →
  (get_available_chats self s).1 =
    Ok (chat_name <$>
          (if ts_columns s
           then order_updated_desc (filter (λ r, username r = self_username self) (chats s))
           else filter (λ r, username r = self_username self) (chats s))).
Proof.
  intros Hs. unfold get_available_chats, try_except, select_user_ordered, select_user.
  unfold mbind, M_bind, bind.
  destruct (ts_columns s) eqn:Hts.
  - by rewrite execute_ok.
  - rewrite execute_missing by done. by rewrite execute_ok.
Qed.

Lemma chat_count_ok self s :
  faults s = [] →
  chat_count self s = length (filter (λ r, username r = self_username self) (chats s)).
Proof.
  intros Hs. unfold chat_count. rewrite get_available_chats_ok by done.
  rewrite length_fmap. destruct (ts_columns s); [|done].
  apply sort_by_length.
Qed.

(** What [create_new_chat] does on a store that answers. *)
Lemma create_new_chat_ok self x s :
  faults s = [] →
  create_new_chat self x s =
    match filter (matches (self_username self) x) (chats s) with
    | _ :: _ => (Ok false, s)
    | [] =>
        (Ok true,
         ChatStore.mk
           (chats s ++
              [if ts_columns s
               then mkChatRow (self_username self) x [] (Some (clock s)) (Some (clock s + 1))
               else mkChatRow (self_username self) x [] None None])
           [] (ts_columns s) (clock s + 2))
    end.
Proof.
  intros Hs. destruct s as [rows fs ts ck]; simpl in *; subst.
  unfold create_new_chat, try_except, select_chat, insert, now.
  unfold mbind, M_bind, bind.
  rewrite execute_ok by done. simpl. unfold with_chats; simpl.
  destruct (filter _ rows); [|done].
  destruct ts.
  - rewrite execute_ok by done. simpl. unfold with_chats; simpl.
    do 2 f_equal. unfold timestamp in *. lia.
  - rewrite execute_missing by done. rewrite execute_ok by done. simpl.
    unfold with_chats; simpl. do 2 f_equal. unfold timestamp in *. lia.
Qed.

(** C5.  On a store that answers: when the user already has a chat of
    that name, [create_new_chat] returns [False] and leaves the store as it
    is; otherwise it returns [True] and appends one row with an empty
    message list, after which the chat loads as empty, a second
    [create_new_chat] of the same name returns [False] and changes nothing,
    and the user's chat count has grown by exactly one. *)
Theorem create_new_chat_spec self x s :
  faults s = [] →
  let u := self_username self in
  let s1 := (create_new_chat self x s).2 in
  (filter (matches u x) (chats s) ≠ [] →
     create_new_chat self x s = (Ok false, s))
  ∧ (filter (matches u x) (chats s) = [] →
       (create_new_chat self x s).1 = Ok true
       ∧ (∃ created updated, chats s1 = chats s ++ [mkChatRow u x [] created updated])
       ∧ (load_history self x s1).1 = Ok []
       ∧ create_new_chat self x s1 = (Ok false, s1)
       ∧ chat_count self s1 = S (chat_count self s)).
Proof.
  intros Hs u s1. subst s1. rewrite create_new_chat_ok by done. fold u.
  split.
  - by destruct (filter (matches u x) (chats s)).
  - intros Hnone. rewrite Hnone. simpl.
    set (row := if ts_columns s then _ else _).
    assert (matches u x row) as Hrow by (subst row; by destruct (ts_columns s)).
    assert (messages row = []) as Hmsgs by (subst row; by destruct (ts_columns s)).
    assert (filter (matches u x) (chats s ++ [row]) = [row]) as Hnow.
    { rewrite filter_app, Hnone. simpl. rewrite filter_cons.
      by destruct (decide (matches u x row)). }
    split_and!.
    + done.
    + subst row. destruct (ts_columns s); by eexists _, _.
    + rewrite load_history_ok by done. simpl. fold u. by rewrite Hnow, Hmsgs.
    + rewrite create_new_chat_ok by done. simpl. fold u. by rewrite Hnow.
    + rewrite !chat_count_ok by done. simpl. fold u.
      rewrite filter_app, length_app. simpl. rewrite filter_cons.
      destruct Hrow as [Hu _].
      destruct (decide (username row = u)); [|done]. simpl. lia.
Qed.

Lemma update_row_absent u old new upd rows :
  filter (matches u old) rows = [] → update_row u old new upd <$> rows = rows.
Proof.
  intros Hnone. apply fmap_id_on. intros r Hr.
  unfold update_row. destruct (decide (matches u old r)) as [Hm|]; [|done].
  by eapply filter_nil_iff in Hnone.
Qed.

(** What [rename_chat] does on a store that answers, past its first test. *)
Lemma rename_chat_ok self old new s :
  faults s = [] → new ≠ "" → new ≠ old →
  rename_chat self old new s =
    match filter (matches (self_username self) new) (chats s) with
    | _ :: _ => (Ok false, s)
    | [] =>
        (Ok true,
         ChatStore.mk
           (update_row (self_username self) old new
              (if ts_columns s then Some (clock s) else None) <$> chats s)
           [] (ts_columns s) (clock s + 1))
    end.
Proof.
  intros Hs Hne Hno. destruct s as [rows fs ts ck]; simpl in *; subst.
  unfold rename_chat.
  rewrite !bool_decide_eq_false_2 by done. simpl.
  unfold try_except, select_chat, update_name, now.
  unfold mbind, M_bind, bind.
  rewrite execute_ok by done. simpl. unfold with_chats; simpl.
  destruct (filter _ rows); [|done].
  destruct ts.
  - by rewrite execute_ok.
  - rewrite execute_missing by done. by rewrite execute_ok.
Qed.

(** C10.  On a store that answers, renaming a chat the user does not have
    to a free, non-empty, different name returns [True] although the
    update matches no row: the table is left exactly as it was. *)
Theorem rename_absent_returns_true self old new s :
  faults s = [] →
  filter (matches (self_username self) old) (chats s) = [] →
  filter (matches (self_username self) new) (chats s) = [] →
  new ≠ "" → new ≠ old →
  (rename_chat self old new s).1 = Ok true
  ∧ chats (rename_chat self old new s).2 = chats s.
Proof.
  intros Hs Hold Hnew Hne Hno. rewrite rename_chat_ok by done.
  rewrite Hnew. simpl. split; [done|]. by apply update_row_absent.
Qed.

End chat_names.

Section rename_claims.
Import ChatStore ConversationManager.
Implicit Types (s : ChatStore.t) (self : ConversationManager.t).

Lemma update_row_takes_name u old new upd r :
  new ≠ old → ¬ matches u new r →
  matches u new (update_row u old new upd r) ↔ matches u old r.
Proof.
  intros Hne Hfree. unfold update_row.
  destruct (decide (matches u old r)) as [[Hu Ho]|Hno]; [done|].
  split; intros Hm; [by destruct Hfree | by destruct Hno].
Qed.

Lemma update_row_leaves_name u old new upd r :
  new ≠ old → ¬ matches u old (update_row u old new upd r).
Proof.
  intros Hne. unfold update_row.
  destruct (decide (matches u old r)) as [[Hu Ho]|Hno]; [|done].
  intros [_ Hx]. simpl in Hx. done.
Qed.

Lemma update_row_renamed u old new upd rows :
  new ≠ old →
  filter (matches u new) rows = [] →
  filter (matches u new) (update_row u old new upd <$> rows)
    = update_row u old new upd <$> filter (matches u old) rows
  ∧ filter (matches u old) (update_row u old new upd <$> rows) = [].
Proof.
  intros Hne Hfree. rewrite filter_nil_iff in Hfree.
  induction rows as [|r rows IH]; [done|].
  destruct IH as [IH1 IH2]. { intros y Hy. apply Hfree. by right. }
  assert (¬ matches u new r) as Hr by (apply Hfree; left).
  pose proof (update_row_takes_name u old new upd r Hne Hr) as Htake.
  pose proof (update_row_leaves_name u old new upd r Hne) as Hleave.
  rewrite fmap_cons, !filter_cons, IH1, IH2.
  rewrite (decide_False (P := matches u old (update_row u old new upd r))) by done.
  split; [|done].
  destruct (decide (matches u new (update_row u old new upd r))) as [H1|H1],
           (decide (matches u old r)) as [H2|H2]; try done.
  - exfalso. by apply H2, Htake.
  - exfalso. by apply H1, Htake.
Qed.

(** C6, as amended.  On a store that answers: [rename_chat] returns
    [False] and changes nothing when the new name is empty, equals the old
    one, or is the name of a chat the user already has; otherwise it
    returns [True] and rewrites, in the rows of the old chat, the name and
    (when the table has that column) [updated_at], which becomes the
    current time, while owner, messages and [created_at] of every row stay
    as they were; the new name then loads what the old name loaded before,
    and the old name loads as empty. *)
Theorem rename_chat_spec self old new s :
  faults s = [] →
  let u := self_username self in
  let s1 := (rename_chat self old new s).2 in
  (new = "" ∨ new = old ∨ filter (matches u new) (chats s) ≠ [] →
     rename_chat self old new s = (Ok false, s))
  ∧ (new ≠ "" → new ≠ old → filter (matches u new) (chats s) = [] →
       (rename_chat self old new s).1 = Ok true
       ∧ chats s1 =
           update_row u old new (if ts_columns s then Some (clock s) else None)
             <$> chats s
       ∧ username <$> chats s1 = username <$> chats s
       ∧ messages <$> chats s1 = messages <$> chats s
       ∧ created_at <$> chats s1 = created_at <$> chats s
       ∧ (load_history self new s1).1 = (load_history self old s).1
       ∧ (load_history self old s1).1 = Ok []).
Proof.
  intros Hs u s1. split.
  - intros Hcase.
    destruct (decide (new = "")) as [->|Hne]; [done|].
    destruct (decide (new = old)) as [->|Hno].
    { unfold rename_chat. rewrite (bool_decide_eq_true_2 (old = old)) by done.
      by rewrite orb_true_r. }
    destruct Hcase as [?|[?|Hex]]; [done..|].
    rewrite rename_chat_ok by done. fold u.
    by destruct (filter (matches u new) (chats s)).
  - intros Hne Hno Hfree. subst s1.
    rewrite rename_chat_ok by done. fold u. rewrite Hfree. simpl.
    set (upd := if ts_columns s then _ else _).
    destruct (update_row_renamed u old new upd (chats s) Hno Hfree) as [Hnew Hold].
    assert (∀ {B} (f : ChatRow → B),
              (∀ r, f (update_row u old new upd r) = f r) →
              f <$> (update_row u old new upd <$> chats s) = f <$> chats s) as Hkeep.
    { intros B f Hf. rewrite <- list_fmap_compose. apply list_fmap_ext.
      intros _ r _. apply Hf. }
    split_and!; try done.
    + apply Hkeep. intros r. unfold update_row. by destruct (decide _).
    + apply Hkeep. intros r. unfold update_row. by destruct (decide _).
    + apply Hkeep. intros r. unfold update_row. by destruct (decide _).
    + rewrite !load_history_ok by done. simpl. fold u. rewrite Hnew.
      destruct (filter (matches u old) (chats s)) as [|r rest] eqn:Hf; [done|].
      rewrite fmap_cons. do 2 f_equal. unfold update_row. by destruct (decide _).
    + rewrite load_history_ok by done. simpl. fold u. by rewrite Hold.
Qed.

End rename_claims.

Section write_failures.
Import ChatStore ConversationManager.
Context `{Embeddings} `{TextSplitter}.
Implicit Types (s : ChatStore.t) (self : ConversationManager.t).

Local Ltac run_store :=
  unfold create_new_chat, save_history, try_except, select_chat, insert, upsert, now,
    mbind, M_bind, bind, mret, M_ret, ret, execute, with_chats;
  simpl.

Lemma save_history_returns self x history s :
  (save_history self x history s).1 = Ok tt.
Proof.
  destruct s as [rows fs ts ck]. run_store.
  destruct fs as [|[] [|[] fs]], ts; reflexivity.
Qed.

Lemma create_new_chat_true self x s :
  (create_new_chat self x s).1 = Ok true →
  ∃ created updated,
    chats (create_new_chat self x s).2
      = chats s ++ [mkChatRow (self_username self) x [] created updated].
Proof.
  destruct s as [rows fs ts ck]. run_store.
  destruct fs as [|[] [|[] [|[] fs]]], ts;
    simpl; destruct (filter (matches (self_username self) x) rows); simpl; try discriminate;
    intros _; by eexists _, _.
Qed.

Lemma create_new_chat_down self x s fs :
  faults s = true :: fs ∨ faults s = false :: true :: true :: fs →
  (create_new_chat self x s).1 = Ok false
  ∧ chats (create_new_chat self x s).2 = chats s.
Proof.
  destruct s as [rows fs0 ts ck]. simpl. run_store.
  intros [->| ->]; simpl; [done|].
  destruct (filter (matches (self_username self) x) rows); simpl; [|done].
  by destruct ts.
Qed.

(** C3, as amended.  A failing store is surfaced by two of the three
    writes.  [add_documents] lets the store's exception reach its caller
    and writes nothing; when the splitter gives no chunk it does not call
    the store at all and returns.  [create_new_chat] returns [False] when its lookup
    fails or both of its insert attempts fail, leaving the table as it was,
    and returns [True] only when the row has been written.  [save_history]
    does not surface it: it returns normally whatever the store does, and
    when both upsert attempts fail the table is left as it was. *)
Theorem write_failure_signals :
  (∀ (vs : VectorStoreManager.t) docs (d : DocStore.t) fs,
      split_documents 1000 200 docs ≠ [] →
      docs ≠ [] → DocStore.faults d = true :: fs →
      VectorStoreManager.add_documents vs docs d
        = (Raise StoreError, DocStore.mk (DocStore.documents d) fs))
  ∧ (∀ (vs : VectorStoreManager.t) docs (d : DocStore.t),
      split_documents 1000 200 docs = [] →
      VectorStoreManager.add_documents vs docs d = (Ok tt, d))
  ∧ (∀ self x s fs,
      faults s = true :: fs ∨ faults s = false :: true :: true :: fs →
      (create_new_chat self x s).1 = Ok false
      ∧ chats (create_new_chat self x s).2 = chats s)
  ∧ (∀ self x s,
      (create_new_chat self x s).1 = Ok true →
      ∃ created updated,
        chats (create_new_chat self x s).2
          = chats s ++ [mkChatRow (self_username self) x [] created updated])
  ∧ (∀ self x history s, (save_history self x history s).1 = Ok tt)
  ∧ (∀ self x history s fs,
      faults s = true :: true :: fs →
      chats (save_history self x history s).2 = chats s).
Proof.
  split_and!.
  - intros vs docs d fs Hsplits Hdocs Hd. destruct docs as [|doc docs]; [done|].
    unfold VectorStoreManager.add_documents, DocStore.add_rows.
    destruct (split_documents 1000 200 (doc :: docs)); [done|]. simpl.
    unfold DocStore.execute. by rewrite Hd.
  - intros vs docs d Hsplits. destruct docs as [|doc docs]; [done|].
    unfold VectorStoreManager.add_documents. by rewrite Hsplits.
  - apply create_new_chat_down.
  - apply create_new_chat_true.
  - apply save_history_returns.
  - intros self x history s fs Hs. destruct s as [rows fs0 ts ck].
    simpl in Hs. subst fs0. by run_store.
Qed.

End write_failures.

Section conversation_samples.
Import ChatStore ConversationManager Sample.

(** C3, counterexample: with the store down, [save_history] returns as it
    does after a successful write, and the message is not stored. *)
Lemma save_history_swallows_failure :
  save_history me "X" [HumanMessage "lost"] store_down
    = (Ok tt, ChatStore.mk (chats one_chat) [] true 11)
  ∧ ¬ save_surfaces_failure.
Proof.
  split; [reflexivity|].
  intros Hclaim.
  by apply (Hclaim me "X" [HumanMessage "lost"] store_down []).
Qed.

(** C3 at work: alice adds her plan while the knowledge store is down. *)
Lemma write_failure_signals_witness :
  split_documents 1000 200 Scenes.plan ≠ []
  ∧ VectorStoreManager.add_documents my_documents Scenes.plan shelf_down
    = (Raise StoreError, shared_name)
  ∧ (create_new_chat me "Y" store_down).1 = Ok false.
Proof.
  destruct write_failure_signals as (Hadd & _ & Hcreate & _).
  split; [discriminate|]. split.
  - apply (Hadd my_documents Scenes.plan shelf_down []);
      [discriminate|discriminate|reflexivity].
  - apply (Hcreate me "Y" store_down [true]). by left.
Defined.

(** C6, counterexample: on a table with timestamps a successful rename
    also rewrites [updated_at] (here from 2 to the current time, 10). *)
Lemma rename_stamps_updated_at :
  chats (rename_chat me "X" "Y" one_chat).2
    = [mkChatRow alice "Y" (to_json <$> greeting) (Some 1) (Some 10)]
  ∧ ¬ rename_rewrites_name_only.
Proof.
  split; [reflexivity|].
  intros Hclaim.
  specialize (Hclaim me "X" "Y" one_chat eq_refl).
  discriminate Hclaim; done.
Qed.

(** C4 at work: saving the greeting into an empty table and loading it. *)
Lemma save_then_load_witness :
  faults no_chats = []
  ∧ (save_history me "X" greeting no_chats).1 = Ok tt
  ∧ (load_history me "X" (save_history me "X" greeting no_chats).2).1 = Ok greeting.
Proof.
  split; [reflexivity|].
  apply (save_then_load me "X" greeting no_chats). reflexivity.
Defined.

(** C9 at work: deleting the one chat of the table. *)
Lemma delete_then_load_witness :
  faults one_chat = []
  ∧ chats (delete_chat me "X" one_chat).2 = []
  ∧ (load_history me "X" (delete_chat me "X" one_chat).2).1 = Ok [].
Proof.
  split; [reflexivity|].
  destruct (delete_then_load me "X" one_chat eq_refl) as (_ & Hrows & _ & _ & Hload).
  split; [exact Hrows | exact Hload].
Defined.

(** C5 at work: a new name in an empty table, and a name already taken. *)
Lemma create_new_chat_witness :
  faults no_chats = []
  ∧ (create_new_chat me "X" no_chats).1 = Ok true
  ∧ chat_count me (create_new_chat me "X" no_chats).2 = S (chat_count me no_chats)
  ∧ create_new_chat me "X" one_chat = (Ok false, one_chat).
Proof.
  split; [reflexivity|].
  destruct (create_new_chat_spec me "X" no_chats eq_refl) as [_ Hfresh].
  destruct (Hfresh eq_refl) as (Htrue & _ & _ & _ & Hcount).
  destruct (create_new_chat_spec me "X" one_chat eq_refl) as [Htaken _].
  split; [exact Htrue|]. split; [exact Hcount|].
  apply Htaken. discriminate.
Defined.

(** C10 at work: renaming in an empty table. *)
Lemma rename_absent_witness :
  faults no_chats = []
  ∧ (rename_chat me "X" "Y" no_chats).1 = Ok true
  ∧ chats (rename_chat me "X" "Y" no_chats).2 = chats no_chats.
Proof.
  split; [reflexivity|].
  apply (rename_absent_returns_true me "X" "Y" no_chats);
    [reflexivity | reflexivity | reflexivity | discriminate | discriminate].
Defined.

(** C6 at work: renaming the one chat of the table, and renaming it to
    its own name. *)
Lemma rename_chat_witness :
  faults one_chat = []
  ∧ (rename_chat me "X" "Y" one_chat).1 = Ok true
  ∧ (load_history me "Y" (rename_chat me "X" "Y" one_chat).2).1 = Ok greeting
  ∧ (load_history me "X" (rename_chat me "X" "Y" one_chat).2).1 = Ok []
  ∧ rename_chat me "X" "X" one_chat = (Ok false, one_chat).
Proof.
  split; [reflexivity|].
  destruct (rename_chat_spec me "X" "Y" one_chat eq_refl) as [_ Hfree].
  destruct Hfree as (Htrue & _ & _ & _ & _ & Hnew & Hold);
    [discriminate | discriminate | reflexivity |].
  destruct (rename_chat_spec me "X" "X" one_chat eq_refl) as [Hsame _].
  split; [exact Htrue|]. split; [rewrite Hnew; reflexivity|].
  split; [exact Hold|]. apply Hsame. right; left; reflexivity.
Defined.

End conversation_samples.

Section knowledge_store.
Import DocStore VectorStoreManager.
Context `{Embeddings} `{TextSplitter}.
Implicit Types (d : DocStore.t) (self : VectorStoreManager.t).

Lemma docs_execute_ok {A} (q : list DocRow → A * list DocRow) d :
  faults d = [] →
  execute q d = (Ok (q (documents d)).1, DocStore.mk (q (documents d)).2 []).
Proof. unfold execute. intros ->. by destruct (q (documents d)). Qed.

Lemma docs_execute_result {A} (q : list DocRow → A * list DocRow) d a :
  (execute q d).1 = Ok a → a = (q (documents d)).1.
Proof.
  unfold execute. destruct (faults d) as [|[] fs]; simpl; try done;
    destruct (q (documents d)); simpl; congruence.
Qed.

Lemma row_for_owner u chunk :
  row_metadata (row_for u chunk) !! "username" = Some (JStr u).
Proof. unfold row_for. simpl. apply lookup_insert_eq. Qed.

Lemma add_documents_rows self docs d :
  documents (add_documents self docs d).2 =
    documents d ++
      match docs, (add_documents self docs d).1 with
      | _ :: _, Ok _ => row_for (self_username self) <$> split_documents 1000 200 docs
      | _, _ => []
      end.
Proof.
  destruct docs as [|doc docs]; simpl.
  { by rewrite app_nil_r. }
  unfold add_rows.
  destruct (split_documents 1000 200 (doc :: docs)) as [|chunk chunks]; simpl.
  { by rewrite app_nil_r. }
  unfold execute.
  destruct (faults d) as [|[] fs]; simpl; rewrite ?app_nil_r; try done;
    by rewrite <- list_fmap_compose.
Qed.

(** C2.  [add_documents] with no documents changes nothing and returns.
    Otherwise the rows it adds to the table are, when the store accepts
    them, exactly one row per chunk of the splitter, carrying the chunk's
    text and the chunk's metadata with [username] set to the acting user
    (and none when the store refuses); so every row it persists names the
    acting user as owner. *)
Theorem add_documents_tags_owner self docs d :
  add_documents self [] d = (Ok tt, d)
  ∧ ∃ added,
      documents (add_documents self docs d).2 = documents d ++ added
      ∧ Forall (λ r, row_metadata r !! "username" = Some (JStr (self_username self)))
          added
      ∧ added =
          match docs, (add_documents self docs d).1 with
          | _ :: _, Ok _ =>
              row_for (self_username self) <$> split_documents 1000 200 docs
          | _, _ => []
          end.
Proof.
  split; [done|].
  eexists. split; [apply add_documents_rows|]. split; [|done].
  destruct docs as [|doc docs]; [by constructor|].
  destruct (add_documents self (doc :: docs) d).1; [|by constructor].
  apply Forall_fmap, Forall_true. intros chunk. apply row_for_owner.
Qed.

End knowledge_store.

Section isolation.
Import DocStore VectorStoreManager.
Context `{Embeddings}.
Implicit Types (d : DocStore.t) (self : VectorStoreManager.t).

Lemma rows_of_owner u d r :
  r ∈ rows_of u d → r ∈ documents d ∧ row_metadata r !! "username" = Some (JStr u).
Proof.
  unfold rows_of. intros [Hflt Hr]%list_elem_of_filter. split; [done|].
  unfold contains in Hflt. by apply map_Forall_singleton in Hflt.
Qed.

Lemma top_k_rows_of query k u d r :
  r ∈ top_k query k {[ "username" := JStr u ]} (documents d) → r ∈ rows_of u d.
Proof.
  unfold top_k. intros (i & Hr%list_elem_of_lookup_2 & _)%elem_of_take.
  by rewrite sort_by_Permutation in Hr.
Qed.

(** The loop neither reads nor writes the store: its outcome is the same
    in every state, which it hands back untouched. *)
Lemma collect_sources_pure self data sources :
  ∃ r, ∀ d, collect_sources self data sources d = (r, d).
Proof.
  revert sources. induction data as [|m data IH]; intros sources; simpl.
  { by eexists. }
  destruct (decide (m !! "username" = Some (JStr (self_username self)))); [|done].
  destruct (m !! "source") as [source|]; [|done].
  destruct (truthy source); [|done].
  destruct source as [p| |]; simpl; try by eexists.
  destruct (IH ({[Path.basename p]} ∪ sources)) as [r Hr].
  exists r. intros d. unfold mbind, M_bind, bind. simpl. apply Hr.
Qed.

Lemma collect_sources_from self data sources d names d' :
  collect_sources self data sources d = (Ok names, d') →
  ∀ n, n ∈ names →
    n ∈ sources
    ∨ ∃ m p, m ∈ data
             ∧ m !! "username" = Some (JStr (self_username self))
             ∧ m !! "source" = Some (JStr p) ∧ n = Path.basename p.
Proof.
  revert sources. induction data as [|m data IH]; intros sources; simpl.
  { intros [= <- _] n Hn. by left. }
  assert (∀ S, collect_sources self data S d = (Ok names, d') →
            ∀ n, n ∈ names →
              n ∈ S ∨ ∃ m' p, m' ∈ m :: data
                ∧ m' !! "username" = Some (JStr (self_username self))
                ∧ m' !! "source" = Some (JStr p) ∧ n = Path.basename p) as Hrest.
  { intros S HS n Hn. destruct (IH S HS n Hn) as [?|(m' & p & Hm' & ?)]; [by left|].
    right. exists m', p. split; [by right|done]. }
  destruct (decide (m !! "username" = Some (JStr (self_username self)))) as [Hu|];
    [|by apply Hrest].
  destruct (m !! "source") as [source|] eqn:Hsrc; [|by apply Hrest].
  destruct (truthy source); [|by apply Hrest].
  destruct source as [p| |]; simpl; try done.
  unfold mbind, M_bind, bind. simpl. intros Hloop n Hn.
  destruct (Hrest _ Hloop n Hn) as [[->%elem_of_singleton|?]%elem_of_union|?];
    [|by left|by right].
  right. exists m, p. split; [left|done].
Qed.

Lemma elem_of_sorted_list (sources : gset string) n :
  n ∈ sorted_list sources ↔ n ∈ sources.
Proof.
  unfold sorted_list. rewrite merge_sort_Permutation. apply elem_of_elements.
Qed.

(** [get_document_sources] in one equation: an empty list when the store
    call fails, when the user has no rows or when the loop raises, else the
    sorted names the loop collected. *)
Lemma get_document_sources_eq self d :
  (get_document_sources self d).1 =
    match faults d with
    | true :: _ => Ok []
    | _ =>
        match row_metadata <$> rows_of (self_username self) d with
        | [] => Ok []
        | data =>
            match (collect_sources self data ∅ d).1 with
            | Ok sources => Ok (sorted_list sources)
            | Raise _ => Ok []
            end
        end
    end.
Proof.
  unfold get_document_sources, try_except, select_metadata, execute, rows_of.
  unfold mbind, M_bind, bind, mret, M_ret, ret.
  set (mine := filter (contains {["username" := JStr (self_username self)]}) (documents d)).
  destruct (faults d) as [|[] fs]; simpl; try done;
    destruct (row_metadata <$> mine) as [|m data]; try done;
    destruct (collect_sources_pure self (m :: data) ∅) as [r Hr];
    rewrite !Hr; by destruct r.
Qed.

Lemma get_document_sources_from self d names :
  (get_document_sources self d).1 = Ok names →
  ∀ n, n ∈ names →
    ∃ r p, r ∈ rows_of (self_username self) d
           ∧ row_metadata r !! "source" = Some (JStr p) ∧ n = Path.basename p.
Proof.
  rewrite get_document_sources_eq.
  assert (Ok [] = Ok names → ∀ n : string, n ∈ names →
            ∃ r p, r ∈ rows_of (self_username self) d
              ∧ row_metadata r !! "source" = Some (JStr p) ∧ n = Path.basename p)
    as Hnone.
  { intros [= <-] n Hn. by apply not_elem_of_nil in Hn. }
  assert (∀ data,
            data = row_metadata <$> rows_of (self_username self) d →
            match (collect_sources self data ∅ d).1 with
            | Ok sources => Ok (sorted_list sources)
            | Raise _ => Ok []
            end = Ok names →
            ∀ n : string, n ∈ names →
              ∃ r p, r ∈ rows_of (self_username self) d
                ∧ row_metadata r !! "source" = Some (JStr p) ∧ n = Path.basename p)
    as Hloop.
  { intros data Hdata.
    destruct (collect_sources self data ∅ d) as [[sources|e] d'] eqn:Hrun; simpl;
      [|done].
    intros [= <-] n Hn%elem_of_sorted_list.
    destruct (collect_sources_from _ _ _ _ _ _ Hrun n Hn)
      as [Hempty|(m' & p & Hm' & _ & Hp & ->)].
    { by apply not_elem_of_empty in Hempty. }
    rewrite Hdata in Hm'. apply list_elem_of_fmap in Hm' as (r & -> & Hr).
    by exists r, p. }
  destruct (faults d) as [|[] fs]; try done;
    destruct (row_metadata <$> rows_of (self_username self) d) as [|m data] eqn:Hdata;
    try done; by apply Hloop.
Qed.

Lemma similarity_search_depends query k u d d' :
  rows_of u d' = rows_of u d → faults d' = faults d →
  (similarity_search query k {[ "username" := JStr u ]} d').1
    = (similarity_search query k {[ "username" := JStr u ]} d).1.
Proof.
  unfold rows_of. intros Hrows Hfaults.
  unfold similarity_search, execute, top_k.
  rewrite Hfaults.
  destruct (faults d) as [|[] fs]; simpl; by rewrite ?Hrows.
Qed.

Lemma get_document_sources_depends self d d' :
  rows_of (self_username self) d' = rows_of (self_username self) d →
  faults d' = faults d →
  (get_document_sources self d').1 = (get_document_sources self d).1.
Proof.
  intros Hrows Hfaults. rewrite !get_document_sources_eq, Hrows, Hfaults.
  destruct (faults d) as [|[] fs]; try done;
    destruct (row_metadata <$> rows_of (self_username self) d) as [|m data];
    try done;
    destruct (collect_sources_pure self (m :: data) ∅) as [r Hr];
    by rewrite !Hr.
Qed.

(** C1.  For two distinct users: every chunk the retriever built for U1
    returns names U1, and not U2, as its owner; every file name
    [get_document_sources] lists for U1 is the base name of the source of a
    row owned by U1 (its loop takes names only from metadata naming U1,
    whatever the store's response holds), and no such row is owned by U2;
    and both results are determined by U1's own rows, so that rows of U2, of
    whatever source name, never change them. *)
Theorem no_cross_user_results (U1 U2 query : string) (s : RAGAgentUI.t) :
  U1 ≠ U2 →
  let d := RAGAgentUI.doc_store s in
  (∀ chunks, (RAGAgentUI.as_retriever U1 query s).1 = Ok chunks →
     ∀ c, c ∈ chunks → owned_by U1 c ∧ ¬ owned_by U2 c)
  ∧ (∀ names, (get_document_sources (VectorStoreManager.mk U1) d).1 = Ok names →
       ∀ n, n ∈ names →
         ∃ r p, r ∈ rows_of U1 d
                ∧ row_metadata r !! "source" = Some (JStr p) ∧ n = Path.basename p)
  ∧ (∀ (data : list (gmap string JVal)) d0 names d1,
       collect_sources (VectorStoreManager.mk U1) data ∅ d0 = (Ok names, d1) →
       ∀ n, n ∈ names →
         ∃ m p, m ∈ data ∧ m !! "username" = Some (JStr U1)
                ∧ m !! "source" = Some (JStr p) ∧ n = Path.basename p)
  ∧ (∀ r, r ∈ rows_of U1 d → row_metadata r !! "username" ≠ Some (JStr U2))
  ∧ (∀ s' : RAGAgentUI.t,
       let d' := RAGAgentUI.doc_store s' in
       rows_of U1 d' = rows_of U1 d → faults d' = faults d →
       (RAGAgentUI.as_retriever U1 query s').1 = (RAGAgentUI.as_retriever U1 query s).1
       ∧ (get_document_sources (VectorStoreManager.mk U1) d').1
           = (get_document_sources (VectorStoreManager.mk U1) d).1).
Proof.
  intros Hne d. split_and!.
  - intros chunks Hres c Hc.
    unfold RAGAgentUI.as_retriever, RAGAgentUI.on_docs in Hres. fold d in Hres.
    destruct (similarity_search query 5 {["username" := JStr U1]} d)
      as [res d1] eqn:Hsearch.
    simpl in Hres. subst res.
    assert ((similarity_search query 5 {["username" := JStr U1]} d).1 = Ok chunks)
      as Hq by (by rewrite Hsearch).
    apply docs_execute_result in Hq. simpl in Hq. subst chunks.
    apply list_elem_of_fmap in Hc as (r & -> & Hr).
    apply top_k_rows_of, rows_of_owner in Hr as [_ Hu].
    split.
    + by exists (row_metadata r).
    + intros (m & [= <-] & Hm). rewrite Hu in Hm. by injection Hm.
  - apply (get_document_sources_from (VectorStoreManager.mk U1)).
  - intros data d0 names d1 Hloop n Hn.
    destruct (collect_sources_from _ _ _ _ _ _ Hloop n Hn) as [Hempty|Hfrom];
      [by apply not_elem_of_empty in Hempty | done].
  - intros r [_ Hu]%rows_of_owner. rewrite Hu. by intros [= ?].
  - intros s' d' Hrows Hfaults. split.
    + unfold RAGAgentUI.as_retriever, RAGAgentUI.on_docs. fold d d'.
      pose proof (similarity_search_depends query 5 U1 d d' Hrows Hfaults) as Hsame.
      destruct (similarity_search query 5 {["username" := JStr U1]} d') as [r1 d1].
      destruct (similarity_search query 5 {["username" := JStr U1]} d) as [r2 d2].
      done.
    + by apply (get_document_sources_depends (VectorStoreManager.mk U1)).
Qed.

End isolation.

Section answering.
Import RAGAgentUI.
Context `{Embeddings} `{LanguageModel}.
Implicit Types (s : RAGAgentUI.t).

Lemma on_chats_save s chat history :
  ∃ c, on_chats (ConversationManager.save_history
                   (ConversationManager.mk (username s)) chat history) s
       = (Ok tt, mk (username s) (current_chat s) (messages s) c (doc_store s)).
Proof.
  unfold on_chats.
  pose proof (save_history_returns (ConversationManager.mk (username s)) chat
                history (chat_store s)) as Hret.
  destruct (ConversationManager.save_history _ chat history (chat_store s))
    as [r c]. simpl in Hret. subst r. by exists c.
Qed.

(** C8.  With a knowledge store that answers, the chat turn answers the
    question with what the language model generates from (1) the chunks
    the store finds for the question among the user's own rows, five at
    most, (2) joined into the grounding context, (3) together with the
    messages of the chat before the question and the question itself; (4)
    that text is the result, and question and answer are appended to the
    chat.  When the user has no rows the context is empty and the model is
    called all the same.
    (The chain between retriever and model is modelled from section 4.4 of
    the specification.) *)
Theorem on_prompt_answers (question : string) s :
  DocStore.faults (doc_store s) = [] →
  let owner := username s in
  let chunks :=
    DocStore.to_document <$>
      DocStore.top_k question 5 {[ "username" := JStr owner ]}
        (DocStore.documents (doc_store s)) in
  let context := grounding_context chunks in
  (on_prompt question s).1 =
    match generate context (messages s) question with
    | Some answer => Ok answer
    | None => Raise ModelError
    end
  ∧ (∀ c, c ∈ chunks → owned_by owner c)
  ∧ (length chunks ≤ 5)%nat
  ∧ (rows_of owner (doc_store s) = [] →
       chunks = [] ∧ context = ""
       ∧ (on_prompt question s).1 =
           match generate "" (messages s) question with
           | Some answer => Ok answer
           | None => Raise ModelError
           end)
  ∧ (∀ answer,
       generate context (messages s) question = Some answer →
       messages (on_prompt question s).2
         = messages s ++ [HumanMessage question; AIMessage answer]).
Proof.
  intros Hd owner chunks context.
  assert (∀ st, username st = owner → doc_store st = doc_store s →
            as_retriever owner question st
            = (Ok chunks,
               mk (username st) (current_chat st) (messages st) (chat_store st)
                  (DocStore.mk (DocStore.documents (doc_store s)) []))) as Hretr.
  { intros st Hu Hds. unfold as_retriever, on_docs, DocStore.similarity_search.
    rewrite Hds, docs_execute_ok by done. done. }
  assert (∀ r,
            on_prompt question s = r →
            r.1 = match generate context (messages s) question with
                  | Some answer => Ok answer
                  | None => Raise ModelError
                  end
            ∧ ∀ answer, generate context (messages s) question = Some answer →
                messages r.2 = messages s ++ [HumanMessage question; AIMessage answer])
    as Hrun.
  { intros r <-.
    unfold on_prompt, get_conversational_rag_chain, append_message, get_messages.
    unfold mbind, M_bind, bind, mret, M_ret, ret, raise. simpl.
    rewrite Hretr by done. simpl.
    rewrite removelast_last. fold context.
    destruct (generate context (messages s) question) as [answer|]; simpl.
    2: { split; [done|]. by intros answer. }
    match goal with |- context [on_chats ?m ?st] =>
      destruct (on_chats_save st (current_chat s)
                  ((messages s ++ [HumanMessage question]) ++ [AIMessage answer]))
        as [c Hc] end.
    simpl in Hc. rewrite Hc. simpl. split; [done|].
    intros a [= <-]. by rewrite <- app_assoc. }
  destruct (Hrun _ eq_refl) as [Hres Hmsgs].
  split_and!; try done.
  - intros c (r & -> & Hr)%list_elem_of_fmap.
    apply top_k_rows_of, rows_of_owner in Hr as [_ Hu].
    by exists (DocStore.row_metadata r).
  - subst chunks. rewrite length_fmap. unfold DocStore.top_k.
    rewrite length_take. lia.
  - intros Hnone. assert (chunks = []) as Hc.
    { subst chunks. unfold DocStore.top_k. unfold rows_of in Hnone.
      by rewrite Hnone. }
    assert (context = "") as Hctx by (subst context; by rewrite Hc).
    split_and!; [done..|]. by rewrite Hres, Hctx.
Qed.

End answering.

Section ingestion.
Import DocumentProcessor.
Context `{Loaders}.
Implicit Types (d : Disk.t) (file : UploadedFile).

Lemma io_ok {A} (op : gmap string (list Byte.byte) → result A * gmap string (list Byte.byte)) d :
  Disk.faults d = [] →
  Disk.io op d = ((op (Disk.files d)).1, Disk.mk (op (Disk.files d)).2 []).
Proof. unfold Disk.io. intros ->. by destruct (op (Disk.files d)). Qed.

(** One round of the loop on a disk that works: the file is written, read
    back by its loader when it has one, and removed. *)
Lemma process_loop_step file rest docs d :
  Disk.faults d = [] →
  ∃ d', Disk.faults d' = [] ∧
    process_loop (file :: rest) docs d =
      match loader_for (Path.lower (Path.suffix ("./temp_" +:+ name file))) with
      | Some loader =>
          match extract loader (Path.to_str ("./temp_" +:+ name file)) (getbuffer file) with
          | Some loaded => process_loop rest (docs ++ loaded) d'
          | None =>
              (Raise LoaderError,
               Disk.mk (<[Path.to_str ("./temp_" +:+ name file) := getbuffer file]>
                          (Disk.files d)) [])
          end
      | None => process_loop rest docs d'
      end.
Proof.
  intros Hd.
  set (path := Path.to_str ("./temp_" +:+ name file)).
  exists (Disk.mk (delete path (<[path := getbuffer file]> (Disk.files d))) []).
  split; [done|].
  simpl. fold path. unfold Disk.write_file, Disk.load, Disk.remove.
  unfold mbind, M_bind, bind.
  rewrite io_ok by done. simpl.
  destruct (loader_for _) as [loader|].
  - rewrite io_ok by done. simpl. rewrite lookup_insert_eq.
    destruct (extract loader path (getbuffer file)) as [loaded|]; simpl; [|done].
    rewrite io_ok by done. simpl. by rewrite lookup_insert_eq.
  - rewrite io_ok by done. simpl. by rewrite lookup_insert_eq.
Qed.

Lemma process_loop_loader_raises files docs d :
  Disk.faults d = [] →
  (∃ file, file ∈ files ∧ supported file ∧ extracted file = None) →
  (process_loop files docs d).1 = Raise LoaderError.
Proof.
  revert docs d. induction files as [|file rest IH]; intros docs d Hd Hbad.
  { destruct Hbad as (f & Hf & _). by apply not_elem_of_nil in Hf. }
  destruct (process_loop_step file rest docs d Hd) as (d' & Hd' & ->).
  destruct (loader_for _) as [loader|] eqn:Hl.
  - destruct (extract loader _ (getbuffer file)) as [loaded|] eqn:Hx; [|done].
    apply IH; [done|]. destruct Hbad as (f & Hf & Hsup & Hnone).
    apply elem_of_cons in Hf as [->|Hf]; [|by exists f].
    unfold extracted in Hnone. rewrite Hl in Hnone. simpl in Hnone. congruence.
  - apply IH; [done|]. destruct Hbad as (f & Hf & Hsup & Hnone).
    apply elem_of_cons in Hf as [->|Hf]; [|by exists f].
    unfold supported in Hsup. rewrite Hl in Hsup. by destruct Hsup.
Qed.

Lemma io_eq {A} (op : gmap string (list Byte.byte) → result A * gmap string (list Byte.byte)) d :
  Disk.io op d =
    if List.hd false (Disk.faults d)
    then (Raise IOError, Disk.mk (Disk.files d) (tail (Disk.faults d)))
    else ((op (Disk.files d)).1, Disk.mk (op (Disk.files d)).2 (tail (Disk.faults d))).
Proof.
  unfold Disk.io. destruct (Disk.faults d) as [|[] fs]; simpl; try done;
    by destruct (op (Disk.files d)).
Qed.

Lemma hd_fault (faults : list bool) :
  List.hd false faults = true → faults !! 0%nat = Some true.
Proof. by destruct faults as [|[] ?]. Qed.

Lemma lookup_tail_fault (faults : list bool) i :
  tail faults !! i = faults !! S i.
Proof. by destruct faults. Qed.

Lemma no_fault_S n (faults : list bool) :
  Forall (λ fault, fault = false) (take (S n) faults)
  ↔ List.hd false faults = false
    ∧ Forall (λ fault, fault = false) (take n (tail faults)).
Proof.
  destruct faults as [|f fs]; simpl.
  { rewrite take_nil. split; [done|]. intros _. constructor. }
  by rewrite Forall_cons.
Qed.

Lemma fs_calls_cons file rest :
  fs_calls (file :: rest)
  = ((if decide (supported file) then 3 else 2) + fs_calls rest)%nat.
Proof. done. Qed.

(** How the loop ends, whatever the disk and the loaders do.  It returns
    only when every call went through and every supported file was read;
    it raises the loader's exception only when a supported file cannot be
    read, and the file system's only when one of its calls failed. *)
Lemma process_loop_outcome files docs d :
  match (process_loop files docs d).1 with
  | Ok result =>
      (∀ file, file ∈ files → supported file → is_Some (extracted file))
      ∧ Forall (λ fault, fault = false) (take (fs_calls files) (Disk.faults d))
      ∧ result = docs ++ mjoin (omap extracted files)
  | Raise e =>
      (e = LoaderError
       ∧ ∃ file, file ∈ files ∧ supported file ∧ extracted file = None)
      ∨ (e = IOError
         ∧ ∃ i, (i < fs_calls files)%nat ∧ Disk.faults d !! i = Some true)
  end.
Proof.
  revert docs d. induction files as [|file rest IH]; intros docs d.
  { simpl. split_and!; [|by constructor|by rewrite app_nil_r].
    intros f Hf. by apply not_elem_of_nil in Hf. }
  assert (∀ f, f ∈ file :: rest → f = file ∨ f ∈ rest) as Hcons
    by (intros f Hf; by apply elem_of_cons in Hf).
  rewrite fs_calls_cons.
  simpl process_loop. set (path := Path.to_str ("./temp_" +:+ name file)).
  unfold Disk.write_file, Disk.load, Disk.remove, mbind, M_bind, bind.
  rewrite io_eq. destruct (List.hd false (Disk.faults d)) eqn:H1; simpl.
  { right. split; [done|]. exists 0%nat. split; [|by apply hd_fault].
    destruct (decide (supported file)); lia. }
  destruct (decide (supported file)) as [Hsup|Hsup].
  - destruct Hsup as [loader Hl]. rewrite Hl. simpl.
    assert (supported file) as Hsup by (by exists loader).
    rewrite io_eq. simpl.
    destruct (List.hd false (tail (Disk.faults d))) eqn:H2; simpl.
    { right. split; [done|]. exists 1%nat. split; [lia|].
      rewrite <- lookup_tail_fault. by apply hd_fault. }
    rewrite lookup_insert_eq.
    destruct (extract loader path (getbuffer file)) as [loaded|] eqn:Hx; simpl.
    2:{ left. split; [done|]. exists file. split; [left|]. split; [done|].
        unfold extracted. fold path. rewrite Hl. simpl. by rewrite Hx. }
    assert (extracted file = Some loaded) as Hfile.
    { unfold extracted. fold path. rewrite Hl. simpl. by rewrite Hx. }
    rewrite io_eq. simpl.
    destruct (List.hd false (tail (tail (Disk.faults d)))) eqn:H3; simpl.
    { right. split; [done|]. exists 2%nat. split; [lia|].
      rewrite <- !lookup_tail_fault. by apply hd_fault. }
    rewrite lookup_insert_eq. simpl.
    match goal with |- context [process_loop rest ?ds ?d'] =>
      specialize (IH ds d'); destruct (process_loop rest ds d').1 as [result|e]
    end; simpl in IH.
    + destruct IH as (Hall & Hfaults & ->). split_and!.
      * intros f [->|Hf]%Hcons; [|by apply Hall]. by rewrite Hfile.
      * change (3 + fs_calls rest)%nat with (S (S (S (fs_calls rest)))).
        rewrite !no_fault_S. by split_and!.
      * simpl. rewrite Hfile. simpl. by rewrite app_assoc.
    + destruct IH as [[-> (f & Hf & Hbad)]|[-> (i & Hi & Hfault)]].
      * left. split; [done|]. exists f. split; [by right|done].
      * right. split; [done|]. exists (S (S (S i))). split; [lia|].
        by rewrite <- !lookup_tail_fault.
  - assert (loader_for (Path.lower (Path.suffix ("./temp_" +:+ name file))) = None)
      as Hl.
    { apply eq_None_not_Some. intros Hsome. by apply Hsup. }
    rewrite Hl. simpl.
    assert (extracted file = None) as Hfile.
    { unfold extracted. fold path. by rewrite Hl. }
    rewrite io_eq. simpl.
    destruct (List.hd false (tail (Disk.faults d))) eqn:H2; simpl.
    { right. split; [done|]. exists 1%nat. split; [lia|].
      rewrite <- lookup_tail_fault. by apply hd_fault. }
    rewrite lookup_insert_eq. simpl.
    match goal with |- context [process_loop rest ?ds ?d'] =>
      specialize (IH ds d'); destruct (process_loop rest ds d').1 as [result|e]
    end; simpl in IH.
    + destruct IH as (Hall & Hfaults & ->). split_and!.
      * intros f [->|Hf]%Hcons; [done|by apply Hall].
      * change (2 + fs_calls rest)%nat with (S (S (fs_calls rest))).
        rewrite !no_fault_S. by split_and!.
      * simpl. by rewrite Hfile.
    + destruct IH as [[-> (f & Hf & Hbad)]|[-> (i & Hi & Hfault)]].
      * left. split; [done|]. exists f. split; [by right|done].
      * right. split; [done|]. exists (S (S i)). split; [lia|].
        by rewrite <- !lookup_tail_fault.
Qed.

Lemma loader_for_supported extension :
  is_Some (loader_for extension) ↔ extension ∈ [".pdf"; ".txt"; ".docx"].
Proof.
  unfold loader_for. rewrite !elem_of_cons, elem_of_nil.
  repeat case_decide; split; try (by eexists); try tauto.
  intros [? ?]. discriminate.
Qed.

(** C7, as amended.  [process_uploaded_files] treats as supported the files
    whose lowered extension is .pdf, .txt or .docx and skips the others
    without error.  Failures are not set apart per file: the call returns
    normally exactly when every file-system call of the run succeeded and
    every supported file was read by its loader, and then it returns the
    documents of the supported files in the order of the batch.  In every
    other case an exception leaves the call and no documents are returned:
    the loader's when a supported file cannot be read, the file system's
    when one of its calls failed, at whatever file of the batch. *)
Theorem process_uploaded_files_spec (files : list UploadedFile) d :
  (∀ file, supported file ↔ file_extension file ∈ [".pdf"; ".txt"; ".docx"])
  ∧ (∀ file, ¬ supported file → extracted file = None)
  ∧ (∀ result,
       (process_uploaded_files files d).1 = Ok result
       ↔ (∀ file, file ∈ files → supported file → is_Some (extracted file))
         ∧ Forall (λ fault, fault = false) (take (fs_calls files) (Disk.faults d))
         ∧ result = mjoin (omap extracted files))
  ∧ (∀ e,
       (process_uploaded_files files d).1 = Raise e →
       (e = LoaderError
        ∧ ∃ file, file ∈ files ∧ supported file ∧ extracted file = None)
       ∨ (e = IOError
          ∧ ∃ i, (i < fs_calls files)%nat ∧ Disk.faults d !! i = Some true))
  ∧ ((∃ file, file ∈ files ∧ supported file ∧ extracted file = None)
     ∨ (∃ i, (i < fs_calls files)%nat ∧ Disk.faults d !! i = Some true) →
     ∃ e, (process_uploaded_files files d).1 = Raise e)
  ∧ (Disk.faults d = [] →
       (∃ file, file ∈ files ∧ supported file ∧ extracted file = None) →
       (process_uploaded_files files d).1 = Raise LoaderError)
  ∧ ((∀ file, file ∈ files → supported file → is_Some (extracted file)) →
       (∃ i, (i < fs_calls files)%nat ∧ Disk.faults d !! i = Some true) →
       (process_uploaded_files files d).1 = Raise IOError)
  ∧ (files ≠ [] → (∃ fs, Disk.faults d = true :: fs) →
       (process_uploaded_files files d).1 = Raise IOError).
Proof.
  pose proof (process_loop_outcome files [] d) as Hout.
  fold (process_uploaded_files files) in Hout.
  assert (∀ i, (i < fs_calls files)%nat → Disk.faults d !! i = Some true →
            ¬ Forall (λ fault, fault = false) (take (fs_calls files) (Disk.faults d)))
    as Hfault.
  { intros i Hi Hlook Hnone. rewrite Forall_lookup in Hnone.
    specialize (Hnone i true). rewrite lookup_take_lt in Hnone by done.
    by specialize (Hnone Hlook). }
  split_and!.
  - intros file. apply loader_for_supported.
  - intros file Hfile. unfold supported in Hfile. unfold extracted.
    destruct (loader_for _); [|done]. destruct Hfile. by eexists.
  - intros result. split.
    + intros Hres. by rewrite Hres in Hout.
    + intros (Hall & Hnone & ->).
      destruct (process_uploaded_files files d).1 as [result|e]; simpl in Hout.
      * by destruct Hout as (_ & _ & ->).
      * destruct Hout as [[_ (f & Hf & Hsup & Hbad)]|[_ (i & Hi & Hlook)]].
        -- destruct (Hall f Hf Hsup) as [? Hsome]. congruence.
        -- by destruct (Hfault i Hi Hlook).
  - intros e He. by rewrite He in Hout.
  - intros Hfailure.
    destruct (process_uploaded_files files d).1 as [result|e]; simpl in Hout;
      [|by exists e].
    destruct Hout as (Hall & Hnone & _).
    destruct Hfailure as [(f & Hf & Hsup & Hbad)|(i & Hi & Hlook)].
    + destruct (Hall f Hf Hsup) as [? Hsome]. congruence.
    + by destruct (Hfault i Hi Hlook).
  - apply process_loop_loader_raises; done.
  - intros Hall (i & Hi & Hlook).
    destruct (process_uploaded_files files d).1 as [result|e]; simpl in Hout.
    + destruct Hout as (_ & Hnone & _). by destruct (Hfault i Hi Hlook).
    + destruct Hout as [[_ (f & Hf & Hsup & Hbad)]|[-> _]]; [|done].
      destruct (Hall f Hf Hsup) as [? Hsome]. congruence.
  - intros Hfiles [fs Hd]. destruct files as [|file rest]; [done|].
    unfold process_uploaded_files. simpl.
    unfold Disk.write_file, Disk.io, mbind, M_bind, bind. by rewrite Hd.
Qed.

End ingestion.

Section knowledge_samples.
Import Sample.

(** C1 at work: alice and bob both hold chunks of temp_notes.txt. *)
Lemma no_cross_user_witness :
  alice ≠ bob
  ∧ (∀ chunks, (RAGAgentUI.as_retriever alice "notes" session).1 = Ok chunks →
       ∀ c, c ∈ chunks → owned_by alice c ∧ ¬ owned_by bob c)
  ∧ (RAGAgentUI.as_retriever alice "notes" session).1
      = Ok [DocStore.to_document
              (row_for alice
                 (mkDocument "alice's notes" (Some {[ "source" := JStr "temp_notes.txt" ]})))]
  ∧ (VectorStoreManager.get_document_sources my_documents shared_name).1
      = Ok ["temp_notes.txt"].
Proof.
  assert (alice ≠ bob) as Hne by discriminate.
  split; [exact Hne|].
  destruct (no_cross_user_results alice bob "notes" session Hne) as (Hsearch & _).
  split; [exact Hsearch|].
  split; vm_compute; reflexivity.
Defined.

(** C8 at work: a question in alice's chat, answered by the echoing model. *)
Lemma on_prompt_witness :
  DocStore.faults (RAGAgentUI.doc_store session) = []
  ∧ (RAGAgentUI.on_prompt "what?" session).1 = Ok "alice's notes?what?"
  ∧ RAGAgentUI.messages (RAGAgentUI.on_prompt "what?" session).2
      = greeting ++ [HumanMessage "what?"; AIMessage "alice's notes?what?"].
Proof.
  split; [reflexivity|].
  destruct (on_prompt_answers "what?" session eq_refl) as (Hres & _ & _ & _ & Hmsgs).
  split; [rewrite Hres; reflexivity|].
  apply Hmsgs. reflexivity.
Defined.

(** C7, counterexample: a batch of a text file that is not UTF-8, which
    its loader cannot read, and one it can.  The second file's document is
    what the batch should give; the call raises instead. *)
Lemma failing_file_aborts_batch :
  (DocumentProcessor.process_uploaded_files [garbled_txt; txt_file] disk).1
    = Raise LoaderError
  ∧ mjoin (omap extracted [garbled_txt; txt_file])
      = [mkDocument "b" (Some {[ "source" := JStr "temp_notes.txt" ]})]
  ∧ ¬ batch_survives_failures.
Proof.
  split; [vm_compute; reflexivity|]. split; [vm_compute; reflexivity|].
  intros Hclaim. specialize (Hclaim [garbled_txt; txt_file] disk eq_refl).
  vm_compute in Hclaim. discriminate Hclaim.
Qed.

(** C7 at work: a .csv with a .txt; a .txt that is not UTF-8 with a
    readable one; and a .txt with a .csv on a disk where the write of the
    second file fails. *)
Lemma process_uploaded_files_witness :
  (DocumentProcessor.process_uploaded_files [csv_file; txt_file] disk).1
      = Ok [mkDocument "b" (Some {[ "source" := JStr "temp_notes.txt" ]})]
  ∧ (DocumentProcessor.process_uploaded_files [garbled_txt; txt_file] disk).1
      = Raise LoaderError
  ∧ (DocumentProcessor.process_uploaded_files [txt_file; csv_file] flaky_disk).1
      = Raise IOError.
Proof.
  assert (∀ file, file ∈ [csv_file; txt_file] ∨ file ∈ [txt_file; csv_file] →
            supported file → is_Some (extracted file)) as Hread.
  { intros file Hin Hsup.
    assert (file = csv_file ∨ file = txt_file) as [->| ->].
    { destruct Hin as [Hin|Hin];
        repeat (apply elem_of_cons in Hin as [->|Hin]; [by auto|]);
        by apply not_elem_of_nil in Hin. }
    - exfalso. destruct Hsup as [l Hl]. vm_compute in Hl. discriminate Hl.
    - by eexists. }
  destruct (process_uploaded_files_spec [csv_file; txt_file] disk)
    as (_ & _ & Hgood & _).
  destruct (process_uploaded_files_spec [garbled_txt; txt_file] disk)
    as (_ & _ & _ & _ & _ & Hbad & _).
  destruct (process_uploaded_files_spec [txt_file; csv_file] flaky_disk)
    as (_ & _ & _ & _ & _ & _ & Hio & _).
  split_and!.
  - apply Hgood. split_and!.
    + intros file Hin. apply Hread. by left.
    + vm_compute. constructor.
    + vm_compute. reflexivity.
  - apply Hbad; [reflexivity|].
    exists garbled_txt. split; [left|]. split; [by eexists|reflexivity].
  - apply Hio.
    + intros file Hin. apply Hread. by right.
    + exists 3%nat. split; [vm_compute; lia|reflexivity].
Defined.

End knowledge_samples.

(** * Further properties of the code *)

Section conversation_outcomes.
Import ChatStore ConversationManager.
Implicit Types (s : ChatStore.t) (self : ConversationManager.t).

Local Ltac run_chats :=
  unfold create_new_chat, save_history, rename_chat, delete_chat, load_history,
    get_available_chats, try_except, select_chat, select_user, select_user_ordered,
    insert, upsert, update_name, delete, now,
    mbind, M_bind, bind, mret, M_ret, ret, execute, with_chats;
  simpl.

(** Whatever the store does, [save_history] returns normally, and the table
    is then either as it was or the upsert has been applied. *)
Lemma save_history_outcome self x history s :
  (save_history self x history s).1 = Ok tt
  ∧ (chats (save_history self x history s).2 = chats s
     ∨ ∃ upd, chats (save_history self x history s).2
              = upsert_rows (self_username self) x (to_json <$> history) upd (chats s)).
Proof.
  destruct s as [rows fs ts ck]. run_chats.
  destruct fs as [|[] [|[] fs]], ts; simpl; (split; [done|]); eauto.
Qed.

Lemma delete_chat_outcome self x s :
  (delete_chat self x s).1 = Ok tt
  ∧ (chats (delete_chat self x s).2 = chats s
     ∨ chats (delete_chat self x s).2
       = filter (λ r, ¬ matches (self_username self) x r) (chats s)).
Proof.
  destruct s as [rows fs ts ck]. run_chats.
  destruct fs as [|[] fs]; simpl; (split; [done|]); eauto.
Qed.

Lemma create_new_chat_outcome self x s :
  ((create_new_chat self x s).1 = Ok false
   ∧ chats (create_new_chat self x s).2 = chats s)
  ∨ ((create_new_chat self x s).1 = Ok true
     ∧ filter (matches (self_username self) x) (chats s) = []
     ∧ ∃ created updated,
         chats (create_new_chat self x s).2
         = chats s ++ [mkChatRow (self_username self) x [] created updated]).
Proof.
  destruct s as [rows fs ts ck]. run_chats.
  destruct fs as [|[] [|[] [|[] fs]]], ts; simpl;
    destruct (filter (matches (self_username self) x) rows) eqn:Hf; simpl;
    first [by left | right; split_and!; [done..|by eexists _, _]].
Qed.

Lemma rename_chat_outcome self old new s :
  ((rename_chat self old new s).1 = Ok false
   ∧ chats (rename_chat self old new s).2 = chats s)
  ∨ ((rename_chat self old new s).1 = Ok true
     ∧ new ≠ "" ∧ new ≠ old
     ∧ filter (matches (self_username self) new) (chats s) = []
     ∧ ∃ upd,
         chats (rename_chat self old new s).2
         = update_row (self_username self) old new upd <$> chats s).
Proof.
  unfold rename_chat.
  destruct (decide (new = "")) as [->|Hne]; [by left|].
  destruct (decide (new = old)) as [->|Hno].
  { left. rewrite (bool_decide_eq_true_2 (old = old)) by done.
    by rewrite orb_true_r. }
  rewrite !bool_decide_eq_false_2 by done. simpl.
  destruct s as [rows fs ts ck]. run_chats.
  destruct fs as [|[] [|[] [|[] fs]]], ts; simpl;
    destruct (filter (matches (self_username self) new) rows) eqn:Hf; simpl;
    first [by left | right; split_and!; [done..|by eexists]].
Qed.

End conversation_outcomes.

Section more_list_facts.
Context {A : Type}.

Lemma filter_filter_implied (P Q : A → Prop)
    `{∀ x, Decision (P x)} `{∀ x, Decision (Q x)} (l : list A) :
  (∀ x, P x → Q x) → filter P (filter Q l) = filter P l.
Proof.
  intros HPQ. induction l as [|y l IH]; [done|].
  rewrite (filter_cons Q), (filter_cons P).
  destruct (decide (Q y)) as [HQ|HQ], (decide (P y)) as [HP|HP].
  - by rewrite filter_cons, decide_True, IH.
  - by rewrite filter_cons, decide_False, IH.
  - by destruct HQ; apply HPQ.
  - done.
Qed.

(** A map that leaves the elements satisfying [P] alone, and moves nothing
    in or out of [P], is invisible through [filter P]. *)
Lemma filter_fmap_untouched (P : A → Prop) `{∀ x, Decision (P x)}
    (f : A → A) (l : list A) :
  (∀ x, P (f x) ↔ P x) → (∀ x, P x → f x = x) →
  filter P (f <$> l) = filter P l.
Proof.
  intros Hiff Hid. rewrite filter_fmap_stable by done.
  apply fmap_id_on. intros x [HP _]%list_elem_of_filter. by apply Hid.
Qed.

Lemma filter_app_fresh (P : A → Prop) `{∀ x, Decision (P x)} (l : list A) x :
  ¬ P x → filter P (l ++ [x]) = filter P l.
Proof.
  intros HP. rewrite filter_app, filter_cons, decide_False by done.
  simpl. by rewrite app_nil_r.
Qed.

Lemma insert_by_Sorted (before : A → A → bool) x l :
  (∀ a b, before a b = true ∨ before b a = true) →
  Sorted (λ a b, before a b = true) l →
  Sorted (λ a b, before a b = true) (insert_by before x l).
Proof.
  intros Htotal Hl. induction Hl as [|e l Hl IH Hhd]; simpl.
  { by repeat constructor. }
  destruct (before x e) eqn:Hxe.
  - constructor; [by constructor|]. by constructor.
  - constructor; [done|].
    destruct (Htotal x e) as [Hcontra|Hex]; [congruence|].
    destruct Hhd as [|e' l' He]; simpl.
    + by constructor.
    + destruct (before x e'); by constructor.
Qed.

Lemma sort_by_Sorted (before : A → A → bool) l :
  (∀ a b, before a b = true ∨ before b a = true) →
  Sorted (λ a b, before a b = true) (sort_by before l).
Proof.
  intros Htotal. induction l as [|x l IH]; simpl; [constructor|].
  by apply insert_by_Sorted.
Qed.

End more_list_facts.

Section chat_isolation.
Import ChatStore ConversationManager.
Implicit Types (s : ChatStore.t) (self : ConversationManager.t).

(** Rows kept apart by a property [P] that the chat (u, x) does not have. *)
Lemma filter_upsert_rows_other (P : ChatRow → Prop) `{∀ r, Decision (P r)}
    u x msgs upd rows :
  (∀ r, matches u x r → ¬ P r) →
  (∀ r, P (upsert_row u x msgs upd r) ↔ P r) →
  filter P (upsert_rows u x msgs upd rows) = filter P rows.
Proof.
  intros Hnot Hiff. unfold upsert_rows.
  destruct (filter (matches u x) rows).
  - apply filter_app_fresh. by apply Hnot.
  - apply filter_fmap_untouched; [done|].
    intros r HP. unfold upsert_row.
    destruct (decide (matches u x r)) as [Hm|]; [|done]. by destruct (Hnot r).
Qed.

Lemma filter_update_row_other (P : ChatRow → Prop) `{∀ r, Decision (P r)}
    u old new upd (rows : list ChatRow) :
  (∀ r, matches u old r → ¬ P r) →
  (∀ r, P (update_row u old new upd r) ↔ P r) →
  filter P (update_row u old new upd <$> rows) = filter P rows.
Proof.
  intros Hnot Hiff. apply filter_fmap_untouched; [done|].
  intros r HP. unfold update_row.
  destruct (decide (matches u old r)) as [Hm|]; [|done]. by destruct (Hnot r).
Qed.

Lemma upsert_row_username u x msgs upd r :
  username (upsert_row u x msgs upd r) = username r.
Proof. unfold upsert_row. by destruct (decide _). Qed.

Lemma update_row_username u old new upd r :
  username (update_row u old new upd r) = username r.
Proof. unfold update_row. by destruct (decide _). Qed.

(** X1.  Whatever the store does, none of the four writes of a
    ConversationManager touches a row of another user: the rows of every
    other user are the same list before and after [save_history],
    [create_new_chat], [rename_chat] and [delete_chat]. *)
Theorem writes_keep_other_users_rows self (other x y : string)
    (history : list Message) s :
  other ≠ self_username self →
  filter (λ r, username r = other) (chats (save_history self x history s).2)
    = filter (λ r, username r = other) (chats s)
  ∧ filter (λ r, username r = other) (chats (create_new_chat self x s).2)
    = filter (λ r, username r = other) (chats s)
  ∧ filter (λ r, username r = other) (chats (rename_chat self x y s).2)
    = filter (λ r, username r = other) (chats s)
  ∧ filter (λ r, username r = other) (chats (delete_chat self x s).2)
    = filter (λ r, username r = other) (chats s).
Proof.
  intros Hother.
  assert (∀ z r, matches (self_username self) z r → ¬ username r = other) as Hnot.
  { intros z r [Hu _] Ho. congruence. }
  split_and!.
  - destruct (save_history_outcome self x history s) as [_ [->|[upd ->]]]; [done|].
    apply filter_upsert_rows_other; [by apply Hnot|].
    intros r. by rewrite upsert_row_username.
  - destruct (create_new_chat_outcome self x s)
      as [[_ ->]|(_ & _ & c & t & ->)]; [done|].
    apply filter_app_fresh. simpl. done.
  - destruct (rename_chat_outcome self x y s)
      as [[_ ->]|(_ & _ & _ & _ & upd & ->)]; [done|].
    apply filter_update_row_other; [by apply Hnot|].
    intros r. by rewrite update_row_username.
  - destruct (delete_chat_outcome self x s) as [_ [->| ->]]; [done|].
    apply filter_filter_implied. intros r Ho Hm. by eapply Hnot.
Qed.

End chat_isolation.

Section chat_reads.
Import ChatStore ConversationManager.
Implicit Types (s : ChatStore.t) (self : ConversationManager.t).

Local Ltac run_reads :=
  unfold load_history, get_available_chats, delete_chat, try_except, select_chat,
    select_user, select_user_ordered, delete,
    mbind, M_bind, bind, mret, M_ret, ret, execute, with_chats;
  simpl.

(** X2.  The two reads of a ConversationManager never raise and never
    change the table, whatever the store does; [load_history] gives the
    empty list when its call fails, [get_available_chats] when both of its
    attempts fail. *)
Theorem reads_never_write self x s :
  (∃ msgs, (load_history self x s).1 = Ok msgs)
  ∧ chats (load_history self x s).2 = chats s
  ∧ (∃ names, (get_available_chats self s).1 = Ok names)
  ∧ chats (get_available_chats self s).2 = chats s
  ∧ (∀ fs, faults s = true :: fs → (load_history self x s).1 = Ok [])
  ∧ (∀ fs, faults s = true :: true :: fs → (get_available_chats self s).1 = Ok []).
Proof.
  destruct s as [rows fs ts ck]. split_and!.
  - run_reads. destruct fs as [|[] fs]; simpl;
      try destruct (filter (matches (self_username self) x) rows); by eexists.
  - run_reads. destruct fs as [|[] fs]; simpl;
      try destruct (filter (matches (self_username self) x) rows); done.
  - run_reads. destruct fs as [|[] [|[] fs]], ts; simpl; by eexists.
  - run_reads. by destruct fs as [|[] [|[] fs]], ts.
  - intros fs' Hfs. simpl in Hfs. subst fs. by run_reads.
  - intros fs' Hfs. simpl in Hfs. subst fs. by run_reads.
Qed.

(** X7.  [delete_chat] never signals anything: it returns normally
    whatever the store does, and when its call fails the table, and so the
    chat, is still as it was. *)
Theorem delete_chat_is_silent self x s :
  (delete_chat self x s).1 = Ok tt
  ∧ (∀ fs, faults s = true :: fs →
       chats (delete_chat self x s).2 = chats s
       ∧ faults (delete_chat self x s).2 = fs).
Proof.
  destruct s as [rows fs ts ck]. split.
  - run_reads. by destruct fs as [|[] fs].
  - intros fs' Hfs. simpl in Hfs. subst fs. by run_reads.
Qed.

Lemma goes_before_total (a b : option timestamp) :
  goes_before a b = true ∨ goes_before b a = true.
Proof.
  destruct a as [x|], b as [y|]; simpl; auto.
  unfold timestamp in *.
  destruct (decide (y ≤ x)%Z).
  - left. by apply bool_decide_eq_true_2.
  - right. apply bool_decide_eq_true_2. lia.
Qed.

Lemma goes_before_trans (a b c : option timestamp) :
  goes_before a b = true → goes_before b c = true → goes_before a c = true.
Proof.
  destruct a as [x|], b as [y|], c as [z|]; simpl; try done.
  unfold timestamp in *.
  intros H1%bool_decide_eq_true_1 H2%bool_decide_eq_true_1.
  apply bool_decide_eq_true_2. lia.
Qed.

Lemma order_updated_desc_sorted rows :
  StronglySorted (λ a b, goes_before (updated_at a) (updated_at b) = true)
    (order_updated_desc rows).
Proof.
  apply Sorted_StronglySorted.
  - intros a b c. apply goes_before_trans.
  - apply (sort_by_Sorted (λ a b, goes_before (updated_at a) (updated_at b))).
    intros a b. apply goes_before_total.
Qed.

(** X3.  On a store that answers, [get_available_chats] lists the names of
    the user's rows, each row once and no other: in table order when the
    table has no time columns, and otherwise by [updated_at], latest first,
    rows without a stamp before all others. *)
Theorem get_available_chats_order self s :
  faults s = [] →
  ∃ rows,
    (get_available_chats self s).1 = Ok (chat_name <$> rows)
    ∧ rows ≡ₚ filter (λ r, username r = self_username self) (chats s)
    ∧ (ts_columns s = false →
         rows = filter (λ r, username r = self_username self) (chats s))
    ∧ (ts_columns s = true →
         StronglySorted (λ a b, goes_before (updated_at a) (updated_at b) = true) rows).
Proof.
  intros Hs. rewrite get_available_chats_ok by done.
  destruct (ts_columns s); eexists; (split; [done|]); split_and!; try done.
  - apply sort_by_Permutation.
  - intros _. apply order_updated_desc_sorted.
Qed.

End chat_reads.

Section chat_compositions.
Import ChatStore ConversationManager.
Implicit Types (s : ChatStore.t) (self : ConversationManager.t).

Lemma upsert_row_chat_name u x msgs upd r :
  chat_name (upsert_row u x msgs upd r) = chat_name r.
Proof. unfold upsert_row. by destruct (decide _). Qed.

(** The rows of the table after an upsert with a stamp: the chat's rows
    carry the stamp, every other row is a row of the old table. *)
Lemma elem_of_upsert_rows u x msgs ts rows r :
  r ∈ upsert_rows u x msgs (Some ts) rows →
  (matches u x r ∧ updated_at r = Some ts) ∨ (¬ matches u x r ∧ r ∈ rows).
Proof.
  unfold upsert_rows. destruct (filter (matches u x) rows) eqn:Hf.
  - intros [Hr|Hr%list_elem_of_singleton]%elem_of_app.
    + right. split; [|done]. by eapply filter_nil_iff in Hf.
    + subst r. by left.
  - intros (r0 & -> & Hr0)%list_elem_of_fmap. unfold upsert_row.
    destruct (decide (matches u x r0)) as [Hm|Hm]; [by left|by right].
Qed.

Lemma upsert_rows_has_chat u x msgs upd rows :
  ∃ r, r ∈ upsert_rows u x msgs upd rows ∧ matches u x r.
Proof.
  destruct (filter_upsert_rows u x msgs upd rows) as (row & rest & Hf & _).
  exists row.
  assert (row ∈ filter (matches u x) (upsert_rows u x msgs upd rows)) as Hin
    by (rewrite Hf; left).
  by apply list_elem_of_filter in Hin as [? ?].
Qed.

(** X4.  On a table with time columns and a store that answers: when the
    stamps of the user's other chats are all earlier than the clock,
    [get_available_chats] after [save_history] lists the saved chat first. *)
Theorem saved_chat_listed_first self x history s :
  faults s = [] → ts_columns s = true →
  (∀ r, r ∈ chats s → username r = self_username self → chat_name r ≠ x →
     ∃ t, updated_at r = Some t ∧ (t < clock s)%Z) →
  ∃ rest,
    (get_available_chats self (save_history self x history s).2).1 = Ok (x :: rest).
Proof.
  intros Hs Hts Hearlier. set (u := self_username self) in *.
  rewrite save_history_ok by done. rewrite get_available_chats_ok by done.
  simpl. rewrite Hts. fold u.
  set (rows' := upsert_rows u x (to_json <$> history) (Some (clock s)) (chats s)).
  set (mine := filter (λ r, username r = u) rows').
  pose proof (order_updated_desc_sorted mine) as Hsorted.
  pose proof (sort_by_Permutation
                (λ a b, goes_before (updated_at a) (updated_at b)) mine) as Hperm.
  fold (order_updated_desc mine) in Hperm.
  destruct (upsert_rows_has_chat u x (to_json <$> history) (Some (clock s)) (chats s))
    as (r0 & Hr0 & Hm0).
  assert (r0 ∈ mine) as Hr0mine.
  { apply list_elem_of_filter. split; [by destruct Hm0|done]. }
  assert (updated_at r0 = Some (clock s)) as Hstamp0.
  { apply elem_of_upsert_rows in Hr0 as [[_ ?]|[Hn _]]; [done|by destruct Hn]. }
  assert (∀ r, r ∈ mine → chat_name r ≠ x →
            ∃ t, updated_at r = Some t ∧ (t < clock s)%Z) as Hothers.
  { intros r [Hu Hr]%list_elem_of_filter Hname.
    apply elem_of_upsert_rows in Hr as [[[_ ?] _]|[_ Hr]]; [done|].
    by apply Hearlier. }
  rewrite <- Hperm in Hr0mine.
  assert (∀ r, r ∈ order_updated_desc mine → chat_name r ≠ x →
            ∃ t, updated_at r = Some t ∧ (t < clock s)%Z) as Hsorted_others.
  { intros r Hr. apply Hothers. by rewrite <- Hperm. }
  clear Hothers. rename Hsorted_others into Hothers.
  destruct (order_updated_desc mine) as [|h tl]; [by apply not_elem_of_nil in Hr0mine|].
  exists (chat_name <$> tl). rewrite fmap_cons. do 2 f_equal.
  destruct (decide (chat_name h = x)) as [|Hname]; [done|exfalso].
  destruct (Hothers h ltac:(left) Hname) as (t & Ht & Hlt).
  apply elem_of_cons in Hr0mine as [->|Hin].
  { rewrite Hstamp0 in Ht. injection Ht as <-. unfold timestamp in *. lia. }
  apply StronglySorted_inv in Hsorted as [_ Hhd].
  rewrite Forall_forall in Hhd. specialize (Hhd r0 Hin).
  rewrite Ht, Hstamp0 in Hhd. simpl in Hhd.
  apply bool_decide_eq_true_1 in Hhd. unfold timestamp in *. lia.
Qed.

(** X5.  On a store that answers, [save_history] of one chat leaves what
    every other chat of the user loads as it was, and changes the number of
    the user's chats only by creating the chat when it has no row yet. *)
Theorem save_history_frame self x history s :
  faults s = [] →
  (∀ y, y ≠ x →
     (load_history self y (save_history self x history s).2).1
       = (load_history self y s).1)
  ∧ chat_count self (save_history self x history s).2
      = match filter (matches (self_username self) x) (chats s) with
        | [] => S (chat_count self s)
        | _ :: _ => chat_count self s
        end.
Proof.
  intros Hs. rewrite save_history_ok by done.
  set (u := self_username self).
  set (upd := if ts_columns s then _ else _). split.
  - intros y Hy. rewrite !load_history_ok by done. simpl. fold u.
    rewrite (filter_upsert_rows_other (matches u y)); [done| |].
    + intros r [_ Hx] [_ Hy']. congruence.
    + intros r. unfold matches.
      by rewrite upsert_row_username, upsert_row_chat_name.
  - rewrite !chat_count_ok by done. simpl. fold u. unfold upsert_rows.
    destruct (filter (matches u x) (chats s)).
    + rewrite filter_app, length_app. simpl.
      rewrite filter_cons, decide_True by done. simpl. lia.
    + rewrite filter_fmap_stable by (intros r; by rewrite upsert_row_username).
      by rewrite length_fmap.
Qed.

(** X6.  Whatever the store does, [create_new_chat] and [rename_chat]
    return [True] or [False], never raise, and a [False] means that the
    table is exactly as it was; a [True] from [rename_chat] means that the
    update ran on the whole table. *)
Theorem refused_writes_change_nothing self x y s :
  ((create_new_chat self x s).1 = Ok false ∨ (create_new_chat self x s).1 = Ok true)
  ∧ ((create_new_chat self x s).1 = Ok false →
       chats (create_new_chat self x s).2 = chats s)
  ∧ ((rename_chat self x y s).1 = Ok false ∨ (rename_chat self x y s).1 = Ok true)
  ∧ ((rename_chat self x y s).1 = Ok false →
       chats (rename_chat self x y s).2 = chats s)
  ∧ ((rename_chat self x y s).1 = Ok true →
       ∃ upd, chats (rename_chat self x y s).2
              = update_row (self_username self) x y upd <$> chats s).
Proof.
  destruct (create_new_chat_outcome self x s) as [[Hc Hcs]|(Hc & _ & Hcs)];
    destruct (rename_chat_outcome self x y s)
      as [[Hr Hrs]|(Hr & _ & _ & _ & Hrs)];
    rewrite Hc, Hr; split_and!; eauto; done.
Qed.

(** X8.  On a store that answers, renaming a chat to a free name and back
    gives the old name its messages again and leaves the other name
    empty. *)
Theorem rename_there_and_back self x y s :
  faults s = [] → x ≠ "" → y ≠ "" → x ≠ y →
  filter (matches (self_username self) y) (chats s) = [] →
  let s1 := (rename_chat self x y s).2 in
  let s2 := (rename_chat self y x s1).2 in
  (rename_chat self x y s).1 = Ok true
  ∧ (rename_chat self y x s1).1 = Ok true
  ∧ (load_history self x s2).1 = (load_history self x s).1
  ∧ (load_history self y s2).1 = Ok [].
Proof.
  intros Hs Hx Hy Hxy Hfree s1 s2. subst s1 s2.
  set (u := self_username self) in *.
  rewrite (rename_chat_ok self x y s) by done. fold u. rewrite Hfree. simpl.
  set (upd := if ts_columns s then _ else _).
  set (rows1 := update_row u x y upd <$> chats s).
  destruct (update_row_renamed u x y upd (chats s)) as [Hnew Hold]; [done..|].
  fold rows1 in Hnew, Hold.
  rewrite rename_chat_ok by done. simpl. fold u. rewrite Hold.
  set (upd' := if ts_columns s then _ else _).
  destruct (update_row_renamed u y x upd' rows1) as [Hnew' Hold']; [done..|].
  split_and!; try done.
  - rewrite !load_history_ok by done. simpl. fold u.
    rewrite Hnew', Hnew.
    destruct (filter (matches u x) (chats s)) as [|r rest]; [done|].
    rewrite !fmap_cons. do 2 f_equal.
    unfold update_row. repeat (destruct (decide _); simpl); done.
  - rewrite load_history_ok by done. simpl. fold u. by rewrite Hold'.
Qed.

End chat_compositions.

Section string_order.

Lemma ascii_compare_refl (c : ascii) : Ascii.compare c c = Eq.
Proof. unfold Ascii.compare. apply N.compare_refl. Qed.

Lemma string_compare_trans (a b c : string) :
  String.compare a b ≠ Gt → String.compare b c ≠ Gt → String.compare a c ≠ Gt.
Proof.
  revert b c. induction a as [|x a IH]; intros [|y b] [|z c]; simpl; try done.
  unfold Ascii.compare.
  destruct (N.compare_spec (Ascii.N_of_ascii x) (Ascii.N_of_ascii y)) as [Hxy|Hxy|Hxy];
    destruct (N.compare_spec (Ascii.N_of_ascii y) (Ascii.N_of_ascii z)) as [Hyz|Hyz|Hyz];
    try done.
  - rewrite Hxy, Hyz, N.compare_refl. apply IH.
  - intros _ _. rewrite Hxy. by apply N.compare_lt_iff in Hyz as ->.
  - intros _ _. rewrite <- Hyz. by apply N.compare_lt_iff in Hxy as ->.
  - intros _ _.
    assert (Ascii.N_of_ascii x < Ascii.N_of_ascii z)%N as Hxz by lia.
    by apply N.compare_lt_iff in Hxz as ->.
Qed.

#[local] Instance str_le_total : Total VectorStoreManager.str_le.
Proof. intros a b. apply String.leb_total. Qed.

#[local] Instance str_le_trans : Transitive VectorStoreManager.str_le.
Proof.
  intros a b c. unfold VectorStoreManager.str_le, String.leb.
  pose proof (string_compare_trans a b c) as Htrans.
  destruct (String.compare a b), (String.compare b c), (String.compare a c);
    try done; intros _ _; exfalso; by apply Htrans.
Qed.

Lemma sorted_list_sorted (sources : gset string) :
  StronglySorted VectorStoreManager.str_le (VectorStoreManager.sorted_list sources)
  ∧ NoDup (VectorStoreManager.sorted_list sources).
Proof.
  unfold VectorStoreManager.sorted_list. split.
  - apply StronglySorted_merge_sort; apply _.
  - rewrite merge_sort_Permutation. apply NoDup_elements.
Qed.

End string_order.

Section listing.
Import DocStore VectorStoreManager.
Context `{Embeddings}.
Implicit Types (d : DocStore.t) (self : VectorStoreManager.t).

(** X9.  Whatever the store does, [get_document_sources] returns a list,
    in ascending order and without repetitions, and leaves the table as it
    was; when its store call fails the list is empty. *)
Theorem get_document_sources_sorted self d :
  (∃ names,
     (get_document_sources self d).1 = Ok names
     ∧ StronglySorted str_le names ∧ NoDup names)
  ∧ documents (get_document_sources self d).2 = documents d
  ∧ (∀ fs, faults d = true :: fs → (get_document_sources self d).1 = Ok []).
Proof.
  split_and!.
  - rewrite get_document_sources_eq.
    assert (∃ names : list string, Ok [] = Ok names
              ∧ StronglySorted str_le names ∧ NoDup names) as Hnil.
    { exists []. split_and!; [done|constructor|constructor]. }
    destruct (faults d) as [|[] fs]; try done;
      destruct (row_metadata <$> rows_of (self_username self) d) as [|m data];
      try done;
      destruct (collect_sources self (m :: data) ∅ d).1 as [sources|e]; try done;
      exists (sorted_list sources); (split; [done|]); apply sorted_list_sorted.
  - unfold get_document_sources, try_except, select_metadata, execute.
    unfold mbind, M_bind, bind, mret, M_ret, ret.
    destruct (faults d) as [|[] fs]; simpl; try done;
      match goal with |- context [match ?l with [] => _ | _ :: _ => _ end] =>
        destruct l as [|m data] end; try done;
      destruct (collect_sources_pure self (m :: data) ∅) as [r Hr];
      rewrite Hr; by destruct r.
  - intros fs Hfs. rewrite get_document_sources_eq. by rewrite Hfs.
Qed.

End listing.

Section base_names.

Lemma split_slash_nonempty p : Path.split_slash p ≠ [].
Proof.
  destruct p as [|c p]; simpl; [done|].
  destruct (Path.is_slash c); [done|]. by destruct (Path.split_slash p).
Qed.

Lemma split_slash_slash_free file :
  slash_free file = true → Path.split_slash file = [file].
Proof.
  induction file as [|c file IH]; simpl; [done|].
  destruct (Path.is_slash c); simpl; [done|].
  intros Hfree. by rewrite IH.
Qed.

Lemma split_slash_app dir rest :
  Path.split_slash (dir +:+ String "/" rest)
    = Path.split_slash dir ++ Path.split_slash rest.
Proof.
  induction dir as [|c dir IH]; simpl; [done|].
  rewrite IH. destruct (Path.is_slash c); [done|].
  pose proof (split_slash_nonempty dir) as Hne.
  by destruct (Path.split_slash dir).
Qed.

Lemma last_app_cons {A} (l : list A) x l' d :
  List.last (l ++ x :: l') d = List.last (x :: l') d.
Proof.
  induction l as [|y l IH]; [done|].
  simpl. rewrite IH. by destruct l.
Qed.

(** [os.path.basename] on a bare file name, and on one below a directory. *)
Lemma basename_file dir file :
  slash_free file = true →
  Path.basename file = file
  ∧ Path.basename (dir +:+ String "/" file) = file.
Proof.
  intros Hfree. unfold Path.basename.
  rewrite split_slash_app, split_slash_slash_free by done.
  split; [done|]. by rewrite last_app_cons.
Qed.

End base_names.

Section listing_contents.
Import DocStore VectorStoreManager.
Context `{Embeddings} `{TextSplitter}.
Implicit Types (d : DocStore.t) (self : VectorStoreManager.t).

Lemma truthy_JStr p : truthy (JStr p) = true ↔ p ≠ "".
Proof.
  simpl. destruct (decide (p = "")) as [->|Hp].
  - by rewrite bool_decide_eq_true_2.
  - by rewrite bool_decide_eq_false_2.
Qed.

(** On metadata the loop can take throughout, it returns the names it had
    plus the base names of the non-empty string sources of the user's
    items. *)
Lemma collect_sources_all self data sources d :
  Forall listable data →
  ∃ found,
    collect_sources self data sources d = (Ok found, d)
    ∧ ∀ n, n ∈ found ↔
        n ∈ sources
        ∨ ∃ m p, m ∈ data
                 ∧ m !! "username" = Some (JStr (self_username self))
                 ∧ m !! "source" = Some (JStr p) ∧ p ≠ "" ∧ n = Path.basename p.
Proof.
  intros Hdata. revert sources.
  induction Hdata as [|m data Hm Hdata IH]; intros sources; simpl.
  { exists sources. split; [done|]. intros n. split; [by left|].
    intros [?|(m & p & Hin & _)]; [done|]. by apply not_elem_of_nil in Hin. }
  assert (∀ S found : gset string,
            (∀ n, n ∈ found ↔ n ∈ S ∨ ∃ m' p, m' ∈ data
               ∧ m' !! "username" = Some (JStr (self_username self))
               ∧ m' !! "source" = Some (JStr p) ∧ p ≠ "" ∧ n = Path.basename p) →
            (∀ n, n ∈ S ↔ n ∈ sources
               ∨ ∃ p, m !! "username" = Some (JStr (self_username self))
                      ∧ m !! "source" = Some (JStr p) ∧ p ≠ "" ∧ n = Path.basename p) →
            ∀ n, n ∈ found ↔ n ∈ sources ∨ ∃ m' p, m' ∈ m :: data
               ∧ m' !! "username" = Some (JStr (self_username self))
               ∧ m' !! "source" = Some (JStr p) ∧ p ≠ "" ∧ n = Path.basename p)
    as Hglue.
  { intros S found Hfound HS n. rewrite Hfound, HS. split.
    - intros [[?|(p & ? & ? & ? & ?)]|(m' & p & ? & ?)]; [by left|right..].
      + exists m, p. split; [left|done].
      + exists m', p. split; [by right|done].
    - intros [?|(m' & p & [->|?]%elem_of_cons & ?)].
      + by left; left.
      + left; right. by exists p.
      + right. by exists m', p. }
  assert (∀ found : gset string,
            (∀ n, n ∈ found ↔ n ∈ sources ∨ ∃ m' p, m' ∈ data
               ∧ m' !! "username" = Some (JStr (self_username self))
               ∧ m' !! "source" = Some (JStr p) ∧ p ≠ "" ∧ n = Path.basename p) →
            (∀ p, m !! "username" = Some (JStr (self_username self)) →
                  m !! "source" = Some (JStr p) → p = "") →
            ∀ n, n ∈ found ↔ n ∈ sources ∨ ∃ m' p, m' ∈ m :: data
               ∧ m' !! "username" = Some (JStr (self_username self))
               ∧ m' !! "source" = Some (JStr p) ∧ p ≠ "" ∧ n = Path.basename p)
    as Hskip.
  { intros found Hfound Hnone. apply (Hglue sources); [done|].
    intros n. split; [by left|].
    intros [?|(p & Hu & Hs & Hp & _)]; [done|]. by destruct Hp; eapply Hnone. }
  destruct (decide (m !! "username" = Some (JStr (self_username self)))) as [Hu|Hu].
  2: { destruct (IH sources) as (found & -> & Hfound). exists found.
       split; [done|]. apply Hskip; [done|]. intros p ?. done. }
  destruct (m !! "source") as [source|] eqn:Hsrc.
  2: { destruct (IH sources) as (found & -> & Hfound). exists found.
       split; [done|]. apply Hskip; [done|]. intros p _ ?. done. }
  destruct (truthy source) eqn:Htruthy.
  2: { destruct (IH sources) as (found & -> & Hfound). exists found.
       split; [done|]. apply Hskip; [done|]. intros p _ [= ->].
       destruct (decide (p = "")) as [|Hp]; [done|].
       apply truthy_JStr in Hp. congruence. }
  destruct (Hm source Hsrc Htruthy) as [p ->]. simpl.
  unfold mbind, M_bind, bind. simpl.
  destruct (IH ({[Path.basename p]} ∪ sources)) as (found & -> & Hfound).
  exists found. split; [done|].
  apply (Hglue _ _ Hfound). intros n. rewrite elem_of_union, elem_of_singleton.
  apply truthy_JStr in Htruthy. split.
  - intros [->|?]; [right|by left]. by exists p.
  - intros [?|(p' & _ & [= <-] & _ & ->)]; [by right|by left].
Qed.

(** A user's item whose source is truthy and not a string stops the loop
    with a TypeError. *)
Lemma collect_sources_poisoned self data sources d :
  (∃ m v, m ∈ data
          ∧ m !! "username" = Some (JStr (self_username self))
          ∧ m !! "source" = Some v ∧ truthy v = true ∧ ∀ p, v ≠ JStr p) →
  (collect_sources self data sources d).1 = Raise TypeError.
Proof.
  revert sources. induction data as [|m data IH]; intros sources Hbad.
  { destruct Hbad as (m & v & Hin & _). by apply not_elem_of_nil in Hin. }
  simpl.
  assert ((∃ v, m !! "username" = Some (JStr (self_username self))
                ∧ m !! "source" = Some v ∧ truthy v = true ∧ ∀ p, v ≠ JStr p)
          ∨ ∃ m' v, m' ∈ data
              ∧ m' !! "username" = Some (JStr (self_username self))
              ∧ m' !! "source" = Some v ∧ truthy v = true ∧ ∀ p, v ≠ JStr p)
    as [(v & Hu & Hs & Ht & Hv)|Hrest].
  { destruct Hbad as (m' & v & [->|Hin]%elem_of_cons & Hrest).
    - left. by exists v.
    - right. by exists m', v. }
  - rewrite decide_True, Hs, Ht by done.
    destruct v as [p| |]; simpl; try done. by destruct (Hv p).
  - destruct (decide _); [|by apply IH].
    destruct (m !! "source") as [source|]; [|by apply IH].
    destruct (truthy source); [|by apply IH].
    destruct source as [p| |]; simpl; try done.
    unfold mbind, M_bind, bind. simpl. by apply IH.
Qed.

Lemma rows_of_username u d :
  Forall (λ m, m !! "username" = Some (JStr u)) (row_metadata <$> rows_of u d).
Proof.
  apply Forall_fmap, Forall_forall. intros r Hr. by apply rows_of_owner in Hr as [_ ?].
Qed.

(** What the listing holds when every row of the user can be listed. *)
Lemma get_document_sources_listed self d :
  faults d = [] →
  Forall (λ r, listable (row_metadata r)) (rows_of (self_username self) d) →
  ∃ names,
    (get_document_sources self d).1 = Ok names
    ∧ (∀ n, n ∈ names ↔
         ∃ r p, r ∈ rows_of (self_username self) d
                ∧ row_metadata r !! "source" = Some (JStr p)
                ∧ p ≠ "" ∧ n = Path.basename p).
Proof.
  intros Hd Hok. rewrite get_document_sources_eq, Hd.
  set (u := self_username self) in *.
  destruct (collect_sources_all self (row_metadata <$> rows_of u d) ∅ d)
    as (found & Hrun & Hfound).
  { by apply Forall_fmap. }
  assert (∀ n, n ∈ found ↔
            ∃ r p, r ∈ rows_of u d ∧ row_metadata r !! "source" = Some (JStr p)
                   ∧ p ≠ "" ∧ n = Path.basename p) as Hfound'.
  { intros n. rewrite Hfound. split.
    - intros [Hempty|(m & p & (r & -> & Hr)%list_elem_of_fmap & _ & ?)];
        [by apply not_elem_of_empty in Hempty|]. by exists r, p.
    - intros (r & p & Hr & Hs & Hp & ->). right.
      exists (row_metadata r), p. split_and!; try done.
      + apply list_elem_of_fmap. by exists r.
      + by apply rows_of_owner in Hr as [_ ?]. }
  destruct (row_metadata <$> rows_of u d) as [|m data] eqn:Hdata.
  - exists []. split; [done|]. intros n. rewrite <- Hfound'.
    simpl in Hrun. injection Hrun as <-. split; [|done].
    intros Hn. by apply not_elem_of_nil in Hn.
  - rewrite Hrun. simpl. exists (sorted_list found). split; [done|].
    intros n. by rewrite elem_of_sorted_list.
Qed.

(** X10.  On a store that answers, when each of the user's rows has a
    source that is empty, missing, null, zero or a string,
    [get_document_sources] lists exactly the base names of the non-empty
    sources of the user's rows; so a row with source dir/file is listed as
    file. *)
Theorem get_document_sources_complete self d :
  faults d = [] →
  Forall (λ r, listable (row_metadata r)) (rows_of (self_username self) d) →
  ∃ names,
    (get_document_sources self d).1 = Ok names
    ∧ (∀ n, n ∈ names ↔
         ∃ r p, r ∈ rows_of (self_username self) d
                ∧ row_metadata r !! "source" = Some (JStr p)
                ∧ p ≠ "" ∧ n = Path.basename p)
    ∧ (∀ r dir file,
         r ∈ rows_of (self_username self) d → file ≠ "" → slash_free file = true →
         row_metadata r !! "source" = Some (JStr (dir +:+ String "/" file)) →
         file ∈ names).
Proof.
  intros Hd Hok.
  destruct (get_document_sources_listed self d Hd Hok) as (names & Hnames & Hiff).
  exists names. split_and!; try done.
  intros r dir file Hr Hfile Hfree Hsrc. apply Hiff.
  exists r, (dir +:+ String "/" file). split_and!; try done.
  - by destruct dir.
  - by destruct (basename_file dir file Hfree) as [_ ->].
Qed.

(** X11.  On a store that answers, one row of the user whose source is
    truthy and not a string (a non-zero number) empties the whole listing:
    the TypeError of the loop is swallowed. *)
Theorem get_document_sources_poisoned self d r v :
  faults d = [] →
  r ∈ rows_of (self_username self) d →
  row_metadata r !! "source" = Some v → truthy v = true → (∀ p, v ≠ JStr p) →
  (get_document_sources self d).1 = Ok [].
Proof.
  intros Hd Hr Hsrc Htruthy Hv. rewrite get_document_sources_eq, Hd.
  destruct (row_metadata <$> rows_of (self_username self) d) as [|m data] eqn:Hdata;
    [done|].
  rewrite collect_sources_poisoned; [done|].
  exists (row_metadata r), v. split_and!; try done.
  - rewrite <- Hdata. apply list_elem_of_fmap. by exists r.
  - by apply rows_of_owner in Hr as [_ ?].
Qed.

End listing_contents.

Section adding.
Import DocStore VectorStoreManager.
Context `{Embeddings} `{TextSplitter}.
Implicit Types (d : DocStore.t) (self : VectorStoreManager.t).

Lemma contains_username u r :
  contains {[ "username" := JStr u ]} r ↔ row_metadata r !! "username" = Some (JStr u).
Proof. unfold contains. by rewrite map_Forall_singleton. Qed.

Lemma rows_of_app u rows added fs fs' :
  rows_of u (DocStore.mk (rows ++ added) fs)
    = rows_of u (DocStore.mk rows fs')
      ++ filter (contains {[ "username" := JStr u ]}) added.
Proof. unfold rows_of. simpl. apply filter_app. Qed.

Lemma filter_row_for_same u (chunks : list Document) :
  filter (contains {[ "username" := JStr u ]}) (row_for u <$> chunks)
    = row_for u <$> chunks.
Proof.
  induction chunks as [|c chunks IH]; [done|].
  rewrite fmap_cons, filter_cons, decide_True, IH; [done|].
  apply contains_username, row_for_owner.
Qed.

Lemma filter_row_for_other u other (chunks : list Document) :
  other ≠ u →
  filter (contains {[ "username" := JStr other ]}) (row_for u <$> chunks) = [].
Proof.
  intros Hne. apply filter_nil_iff.
  intros r (c & -> & _)%list_elem_of_fmap Hc%contains_username.
  rewrite row_for_owner in Hc. congruence.
Qed.

(** X12.  Whatever the store does, [add_documents] by one user leaves the
    rows of every other user as they were, whatever metadata the uploaded
    documents carry. *)
Theorem add_documents_keeps_other_users_rows self other docs d :
  other ≠ self_username self →
  rows_of other (add_documents self docs d).2 = rows_of other d.
Proof.
  intros Hne. unfold rows_of at 1. rewrite add_documents_rows, filter_app.
  fold (rows_of other d).
  destruct docs as [|doc docs]; [by rewrite app_nil_r|].
  destruct (add_documents self (doc :: docs) d).1; [|by rewrite app_nil_r].
  by rewrite filter_row_for_other, app_nil_r.
Qed.

Lemma add_documents_ok self docs d :
  faults d = [] → docs ≠ [] →
  add_documents self docs d =
    (Ok tt,
     DocStore.mk
       (documents d ++ (row_for (self_username self) <$> split_documents 1000 200 docs))
       []).
Proof.
  intros Hd Hdocs. destruct docs as [|doc docs]; [done|].
  unfold add_documents, add_rows.
  destruct (split_documents 1000 200 (doc :: docs)) as [|chunk chunks]; simpl.
  { destruct d as [rows fs]. simpl in *. subst fs. by rewrite app_nil_r. }
  rewrite docs_execute_ok by done. simpl.
  by rewrite <- list_fmap_compose.
Qed.

(** X13.  On a store that answers, after [add_documents] the user's
    listing holds the base name of the source of every chunk that was added
    (sources that are non-empty strings), provided no row of the user, old
    or new, has a source the listing cannot take. *)
Theorem added_sources_are_listed self docs d :
  faults d = [] → docs ≠ [] →
  Forall (λ r, listable (row_metadata r)) (rows_of (self_username self) d) →
  Forall (λ chunk, listable (default ∅ (metadata chunk)))
    (split_documents 1000 200 docs) →
  ∃ names,
    (get_document_sources self (add_documents self docs d).2).1 = Ok names
    ∧ ∀ chunk m p,
        chunk ∈ split_documents 1000 200 docs →
        metadata chunk = Some m → m !! "source" = Some (JStr p) → p ≠ "" →
        Path.basename p ∈ names.
Proof.
  intros Hd Hdocs Hold Hnew. rewrite add_documents_ok by done.
  set (u := self_username self) in *.
  set (chunks := split_documents 1000 200 docs) in *.
  assert (rows_of u (DocStore.mk (documents d ++ (row_for u <$> chunks)) [])
          = rows_of u d ++ (row_for u <$> chunks)) as Hrows.
  { rewrite (rows_of_app u _ _ _ (faults d)), filter_row_for_same.
    by destruct d. }
  destruct (get_document_sources_listed self
              (DocStore.mk (documents d ++ (row_for u <$> chunks)) []))
    as (names & Hnames & Hiff); [done| |].
  { fold u. rewrite Hrows. apply Forall_app. split; [done|].
    apply Forall_fmap. eapply Forall_impl; [exact Hnew|].
    intros chunk Hchunk v. unfold row_for. simpl.
    rewrite lookup_insert_ne by done. apply Hchunk. }
  exists names. split; [done|].
  intros chunk m p Hin Hm Hsrc Hp. apply Hiff. fold u.
  exists (row_for u chunk), p. split_and!; try done.
  - rewrite Hrows. apply elem_of_app. right. apply list_elem_of_fmap. by exists chunk.
  - unfold row_for. simpl. rewrite lookup_insert_ne by done. by rewrite Hm.
Qed.

End adding.

Section more_samples.
Import ChatStore ConversationManager Sample Scenes.

(** X1 at work: alice deletes her chat "X"; bob's chat "X" stays. *)
Lemma writes_keep_other_users_rows_witness :
  bob ≠ self_username me
  ∧ filter (λ r, username r = bob) (chats (delete_chat me "X" two_users).2)
    = [mkChatRow bob "X" [] None (Some 4)].
Proof.
  assert (bob ≠ self_username me) as Hne by discriminate.
  split; [exact Hne|].
  destruct (writes_keep_other_users_rows me bob "X" "Y" greeting two_users Hne)
    as (_ & _ & _ & Hdelete).
  rewrite Hdelete. reflexivity.
Defined.

(** X3 at work: alice's chats, the later stamp first. *)
Lemma get_available_chats_order_witness :
  faults two_users = []
  ∧ ∃ rows, (get_available_chats me two_users).1 = Ok (chat_name <$> rows)
            ∧ rows ≡ₚ filter (λ r, username r = self_username me) (chats two_users)
            ∧ chat_name <$> rows = ["Z"; "X"].
Proof.
  split; [reflexivity|].
  destruct (get_available_chats_order me two_users eq_refl)
    as (rows & Hres & Hperm & _ & _).
  exists rows. split; [exact Hres|]. split; [exact Hperm|].
  assert (Ok (chat_name <$> rows) = Ok ["Z"; "X"]) as Heq
    by (rewrite <- Hres; reflexivity).
  by injection Heq.
Defined.

(** X4 at work: alice saves "X", which then comes before "Z". *)
Lemma saved_chat_listed_first_witness :
  faults two_users = [] ∧ ts_columns two_users = true
  ∧ ∃ rest, (get_available_chats me (save_history me "X" greeting two_users).2).1
            = Ok ("X" :: rest).
Proof.
  split; [reflexivity|]. split; [reflexivity|].
  apply (saved_chat_listed_first me "X" greeting two_users); [reflexivity..|].
  intros r Hr Hu Hname.
  repeat (apply elem_of_cons in Hr as [->|Hr]); try done.
  - exists 5%Z. split; [reflexivity|]. reflexivity.
  - by apply not_elem_of_nil in Hr.
Defined.

(** X5 at work: saving "X" leaves "Z" and the number of alice's chats. *)
Lemma save_history_frame_witness :
  faults two_users = []
  ∧ (load_history me "Z" (save_history me "X" [] two_users).2).1
    = (load_history me "Z" two_users).1
  ∧ chat_count me (save_history me "X" [] two_users).2 = chat_count me two_users
  ∧ chat_count me (save_history me "Y" [] two_users).2 = S (chat_count me two_users).
Proof.
  split; [reflexivity|].
  destruct (save_history_frame me "X" [] two_users eq_refl) as [Hload Hcount].
  destruct (save_history_frame me "Y" [] two_users eq_refl) as [_ Hfresh].
  split; [apply Hload; discriminate|]. split; [exact Hcount | exact Hfresh].
Defined.

(** X8 at work: "X" renamed to "Y" and back. *)
Lemma rename_there_and_back_witness :
  faults one_chat = []
  ∧ (load_history me "X"
       (rename_chat me "Y" "X" (rename_chat me "X" "Y" one_chat).2).2).1
    = Ok greeting.
Proof.
  split; [reflexivity|].
  destruct (rename_there_and_back me "X" "Y" one_chat)
    as (_ & _ & Hback & _); [reflexivity|discriminate..|reflexivity|].
  rewrite Hback. reflexivity.
Defined.

End more_samples.

Section more_document_samples.
Import DocStore VectorStoreManager Sample Scenes.

Lemma shared_name_listable :
  Forall (λ r, listable (row_metadata r)) (rows_of alice shared_name).
Proof.
  assert (rows_of alice shared_name
          = [row_for alice (mkDocument "alice's notes"
                              (Some {[ "source" := JStr "temp_notes.txt" ]}))])
    as -> by (vm_compute; reflexivity).
  repeat constructor. intros v Hv _. vm_compute in Hv. injection Hv as <-.
  by eexists.
Qed.

(** X10 at work: alice's listing of the table she shares with bob. *)
Lemma get_document_sources_complete_witness :
  faults shared_name = []
  ∧ ∃ names, (get_document_sources my_documents shared_name).1 = Ok names
             ∧ names = ["temp_notes.txt"]
             ∧ ∀ n, n ∈ names ↔
                 ∃ r p, r ∈ rows_of alice shared_name
                        ∧ row_metadata r !! "source" = Some (JStr p)
                        ∧ p ≠ "" ∧ n = Path.basename p.
Proof.
  split; [reflexivity|].
  destruct (get_document_sources_complete my_documents shared_name eq_refl
              shared_name_listable) as (names & Hres & Hiff & _).
  exists names. split; [exact Hres|]. split; [|exact Hiff].
  assert (Ok names = Ok ["temp_notes.txt"]) as Heq
    by (rewrite <- Hres; vm_compute; reflexivity).
  by injection Heq.
Defined.

(** X11 at work: the chunk with source 7 empties alice's listing. *)
Lemma get_document_sources_poisoned_witness :
  faults numbered_source = []
  ∧ (get_document_sources my_documents numbered_source).1 = Ok []
  ∧ (get_document_sources my_documents shared_name).1 = Ok ["temp_notes.txt"].
Proof.
  split; [reflexivity|]. split; [|vm_compute; reflexivity].
  apply (get_document_sources_poisoned my_documents numbered_source
           (row_for alice (mkDocument "page" (Some {[ "source" := JNum 7 ]})))
           (JNum 7)).
  - reflexivity.
  - apply list_elem_of_filter. split.
    + apply contains_username. vm_compute. reflexivity.
    + unfold numbered_source. simpl. do 3 right. left.
  - vm_compute. reflexivity.
  - reflexivity.
  - intros p. discriminate.
Defined.

(** X12 at work: alice adds her plan; bob's rows are the two he had. *)
Lemma add_documents_keeps_other_users_rows_witness :
  bob ≠ self_username my_documents
  ∧ rows_of bob (add_documents my_documents plan shared_name).2
    = rows_of bob shared_name.
Proof.
  assert (bob ≠ self_username my_documents) as Hne by discriminate.
  split; [exact Hne|].
  exact (add_documents_keeps_other_users_rows my_documents bob plan shared_name Hne).
Defined.

(** X13 at work: after adding the plan, alice's listing has its file name. *)
Lemma added_sources_are_listed_witness :
  faults shared_name = [] ∧ plan ≠ []
  ∧ ∃ names,
      (get_document_sources my_documents (add_documents my_documents plan shared_name).2).1
        = Ok names
      ∧ "temp_plan.txt" ∈ names.
Proof.
  split; [reflexivity|]. split; [discriminate|].
  destruct (added_sources_are_listed my_documents plan shared_name)
    as (names & Hres & Hlisted); [reflexivity|discriminate|exact shared_name_listable| |].
  { repeat constructor. intros v Hv _. vm_compute in Hv. injection Hv as <-.
    by eexists. }
  exists names. split; [exact Hres|].
  apply (Hlisted (mkDocument "alice's plan"
                    (Some {[ "source" := JStr "uploads/temp_plan.txt" ]}))
           {[ "source" := JStr "uploads/temp_plan.txt" ]} "uploads/temp_plan.txt").
  - left.
  - reflexivity.
  - vm_compute. reflexivity.
  - discriminate.
Defined.

End more_document_samples.

Section temp_files.
Import DocumentProcessor.
Context `{Loaders}.
Implicit Types (d : Disk.t) (file : UploadedFile).

(** When the loop returns normally, each file's temporary path has been
    written and removed again, in turn. *)
Lemma process_loop_cleans files docs d result :
  (process_loop files docs d).1 = Ok result →
  Disk.files (process_loop files docs d).2
    = foldl (λ fs file, delete (temp_path file) fs) (Disk.files d) files.
Proof.
  revert docs d. induction files as [|file rest IH]; intros docs d; [done|].
  simpl. fold (temp_path file).
  unfold Disk.write_file, Disk.load, Disk.remove, mbind, M_bind, bind.
  rewrite io_eq. destruct (List.hd false (Disk.faults d)); simpl; [done|].
  destruct (loader_for _) as [loader|]; simpl.
  - rewrite io_eq. simpl.
    destruct (List.hd false (tail (Disk.faults d))); simpl; [done|].
    rewrite lookup_insert_eq.
    destruct (extract loader (temp_path file) (getbuffer file)) as [loaded|];
      simpl; [|done].
    rewrite io_eq. simpl.
    destruct (List.hd false (tail (tail (Disk.faults d)))); simpl; [done|].
    rewrite lookup_insert_eq. simpl.
    intros Hrest. rewrite (IH _ _ Hrest). simpl. by rewrite delete_insert_eq.
  - rewrite io_eq. simpl.
    destruct (List.hd false (tail (Disk.faults d))); simpl; [done|].
    rewrite lookup_insert_eq. simpl.
    intros Hrest. rewrite (IH _ _ Hrest). simpl. by rewrite delete_insert_eq.
Qed.

Lemma lookup_foldl_delete (files : list UploadedFile)
    (fs : gmap string (list Byte.byte)) (path : string) :
  foldl (λ fs file, delete (temp_path file) fs) fs files !! path
    = if decide (path ∈ temp_path <$> files) then None else fs !! path.
Proof.
  revert fs. induction files as [|file rest IH]; intros fs.
  { destruct (decide _) as [Hin|_]; [by apply not_elem_of_nil in Hin|done]. }
  simpl foldl. rewrite IH, fmap_cons.
  destruct (decide (path ∈ temp_path <$> rest)) as [Hin|Hin].
  { rewrite decide_True; [done|]. by right. }
  destruct (decide (path = temp_path file)) as [->|Hne].
  - rewrite lookup_delete_eq. rewrite decide_True; [done|]. left.
  - rewrite lookup_delete_ne by done.
    rewrite decide_False; [done|]. by intros [?|?]%elem_of_cons.
Qed.

(** X14.  When [process_uploaded_files] returns normally, no temporary
    file of the batch is left: every path temp_<name> of the batch is absent
    from the directory afterwards, also when a file was there under that
    path before, and every other path holds what it held. *)
Theorem process_uploaded_files_cleans_up (files : list UploadedFile) d result :
  (process_uploaded_files files d).1 = Ok result →
  ∀ path,
    Disk.files (process_uploaded_files files d).2 !! path
      = if decide (path ∈ temp_path <$> files) then None
        else Disk.files d !! path.
Proof.
  intros Hres path. unfold process_uploaded_files in *.
  rewrite (process_loop_cleans _ _ _ _ Hres). apply lookup_foldl_delete.
Qed.

(** X15.  On a disk that works, when the loader of a file raises after
    the files before it went through, the exception leaves
    [process_uploaded_files] with that file's temporary copy still in the
    directory: the [os.remove] after [loader.load()] is not reached. *)
Theorem failed_load_leaves_temp_file (before after : list UploadedFile) file d :
  Disk.faults d = [] →
  (∀ f, f ∈ before → supported f → is_Some (extracted f)) →
  supported file → extracted file = None →
  (process_uploaded_files (before ++ file :: after) d).1 = Raise LoaderError
  ∧ Disk.files (process_uploaded_files (before ++ file :: after) d).2
      !! temp_path file = Some (getbuffer file).
Proof.
  intros Hd Hbefore [loader Hl] Hnone. unfold process_uploaded_files.
  generalize (@nil Document) as docs. revert d Hd.
  induction before as [|f before IH]; intros d Hd docs.
  - simpl app.
    destruct (process_loop_step file after docs d Hd) as (d' & _ & ->).
    unfold extracted in Hnone. rewrite Hl in *. simpl in Hnone.
    rewrite Hnone. simpl. split; [done|]. apply lookup_insert_eq.
  - rewrite <- app_comm_cons.
    destruct (process_loop_step f (before ++ file :: after) docs d Hd)
      as (d' & Hd' & ->).
    assert (∀ g, g ∈ before → supported g → is_Some (extracted g)) as Hrest.
    { intros g Hg. apply Hbefore. by right. }
    pose proof (Hbefore f ltac:(left)) as Hf. unfold supported, extracted in Hf.
    destruct (loader_for (Path.lower (Path.suffix ("./temp_" +:+ name f))))
      as [l|]; simpl in Hf; [|by apply IH].
    destruct (extract l _ (getbuffer f)) as [loaded|]; [by apply IH|].
    destruct Hf as [? ?]; done.
Qed.

End temp_files.

Section extensions.
Import DocumentProcessor.

Lemma app_cons (c : ascii) (a b : string) :
  String c a +:+ b = String c (a +:+ b).
Proof. reflexivity. Qed.

Lemma str_length_app (a b : string) :
  String.length (a +:+ b) = (String.length a + String.length b)%nat.
Proof.
  induction a as [|c a IH]; [done|]. rewrite app_cons. simpl. by rewrite IH.
Qed.

Lemma substring_whole (b : string) : String.substring 0 (String.length b) b = b.
Proof. induction b as [|c b IH]; [done|]. simpl. by rewrite IH. Qed.

Lemma substring_after (a b : string) :
  String.substring (String.length a) (String.length b) (a +:+ b) = b.
Proof.
  induction a as [|c a IH]; [apply substring_whole|]. rewrite app_cons. apply IH.
Qed.

Lemma rfind_dot_free (e : string) : dot_free e = true → Path.rfind_dot e = None.
Proof.
  induction e as [|c e IH]; [done|]. simpl.
  destruct (Path.is_dot c); [done|]. simpl. by intros ->%IH.
Qed.

Lemma rfind_dot_last (a e : string) :
  dot_free e = true →
  Path.rfind_dot (a +:+ String "." e) = Some (String.length a).
Proof.
  intros He. induction a as [|c a IH].
  - change ("" +:+ String "." e) with (String "." e). simpl.
    by rewrite rfind_dot_free.
  - rewrite app_cons. simpl. by rewrite IH.
Qed.

Lemma slash_free_app (a b : string) :
  slash_free (a +:+ b) = slash_free a && slash_free b.
Proof.
  induction a as [|c a IH]; [done|]. rewrite app_cons. simpl. rewrite IH.
  by destruct (Path.is_slash c), (slash_free a).
Qed.

(** The temporary path of an upload with a bare name: the name after
    "temp_", in the working directory. *)
Lemma temp_path_bare (name : string) :
  slash_free name = true →
  Path.to_str ("./temp_" +:+ name) = "temp_" +:+ name
  ∧ Path.name ("./temp_" +:+ name) = "temp_" +:+ name.
Proof.
  intros Hname.
  assert (Path.parts ("./temp_" +:+ name) = ["temp_" +:+ name]) as Hparts.
  { unfold Path.parts.
    change ("./temp_" +:+ name) with ("." +:+ String "/" ("temp_" +:+ name)).
    rewrite split_slash_app.
    rewrite (split_slash_slash_free ("temp_" +:+ name))
      by (by rewrite slash_free_app, Hname).
    change (Path.split_slash ".") with ["."]. simpl app.
    rewrite filter_cons, decide_False by (by intros [_ ?]).
    rewrite filter_cons, decide_True by done. done. }
  unfold Path.to_str, Path.name. rewrite Hparts. done.
Qed.

Lemma suffix_last_extension (stem ext : string) :
  slash_free stem = true → slash_free ext = true →
  dot_free ext = true → ext ≠ "" →
  Path.suffix ("./temp_" +:+ stem +:+ String "." ext) = String "." ext.
Proof.
  intros Hstem Hext Hdot Hne. unfold Path.suffix.
  destruct (temp_path_bare (stem +:+ String "." ext)) as [_ ->].
  { rewrite slash_free_app, Hstem. simpl. by rewrite Hext. }
  change ("temp_" +:+ stem +:+ String "." ext)
    with (("temp_" +:+ stem) +:+ String "." ext).
  rewrite rfind_dot_last by done.
  rewrite (str_length_app ("temp_" +:+ stem) (String "." ext)).
  assert (String.length ext ≠ 0)%nat as Hlen by (by destruct ext).
  assert (String.length ("temp_" +:+ stem) = 5 + String.length stem)%nat as Hpre
    by apply str_length_app.
  assert (String.length (String "." ext) = S (String.length ext)) as Hpost by done.
  set (i := String.length ("temp_" +:+ stem)) in *.
  set (j := String.length (String "." ext)) in *.
  rewrite bool_decide_eq_true_2 by lia.
  replace (i + j - i)%nat with j by lia. subst i j.
  apply substring_after.
Qed.

Lemma loader_for_dot (e : string) (loader : Loader) :
  loader_for (String "." e) = Some loader ↔
    (e = "pdf" ∧ loader = PyPDFLoader)
    ∨ (e = "txt" ∧ loader = TextLoader)
    ∨ (e = "docx" ∧ loader = Docx2txtLoader).
Proof.
  unfold loader_for. repeat case_decide; simplify_eq; split;
    try (intros [= <-]; auto; fail);
    intros [[? ?]|[[? ?]|[? ?]]]; simplify_eq; done.
Qed.

(** X16.  For an upload named stem.ext (no slash in the name, no dot in
    ext, ext not empty) the loader is chosen by ext alone, letter case
    aside: PyPDFLoader for pdf, TextLoader for txt, Docx2txtLoader for docx,
    and the file is skipped for any other ext; the temporary copy is
    temp_stem.ext in the working directory.  Dots in stem do not count, and
    stem may be empty. *)
Theorem loader_by_last_extension (stem ext : string) (buffer : list Byte.byte)
    (loader : Loader) :
  slash_free stem = true → slash_free ext = true →
  dot_free ext = true → ext ≠ "" →
  let file := mkUploadedFile (stem +:+ String "." ext) buffer in
  temp_path file = "temp_" +:+ stem +:+ String "." ext
  ∧ (loader_for (Path.lower (Path.suffix ("./temp_" +:+ name file))) = Some loader ↔
       (Path.lower ext = "pdf" ∧ loader = PyPDFLoader)
       ∨ (Path.lower ext = "txt" ∧ loader = TextLoader)
       ∨ (Path.lower ext = "docx" ∧ loader = Docx2txtLoader))
  ∧ (supported file ↔ Path.lower ext ∈ ["pdf"; "txt"; "docx"]).
Proof.
  intros Hstem Hext Hdot Hne file.
  assert (slash_free (stem +:+ String "." ext) = true) as Hname.
  { rewrite slash_free_app, Hstem. simpl. by rewrite Hext. }
  assert (Path.lower (Path.suffix ("./temp_" +:+ name file))
          = String "." (Path.lower ext)) as Hsuffix.
  { subst file. cbn [name]. by rewrite suffix_last_extension. }
  split_and!.
  - unfold temp_path. subst file. cbn [name].
    by destruct (temp_path_bare _ Hname) as [-> _].
  - rewrite Hsuffix. apply loader_for_dot.
  - unfold supported. rewrite Hsuffix. split.
    + intros [l Hl]. apply loader_for_dot in Hl as [[-> _]|[[-> _]|[-> _]]];
        set_solver.
    + intros Hin. repeat (apply elem_of_cons in Hin as [->|Hin]);
        [by eexists..|by apply not_elem_of_nil in Hin].
Qed.

End extensions.

Section new_chat_names.
Import Handlers.

Lemma str_app_nil_r (a : string) : a +:+ "" = a.
Proof. induction a as [|c a IH]; [done|]. rewrite app_cons. by rewrite IH. Qed.

Lemma candidate_next original counter :
  (1 ≤ counter)%nat →
  original +:+ "_" +:+ pretty.pretty (S counter) = candidate original (S counter).
Proof. intros Hc. unfold candidate. destruct counter; [lia|done]. Qed.

Lemma candidate_inj original j k :
  (1 ≤ j)%nat → (1 ≤ k)%nat →
  candidate original j = candidate original k → j = k.
Proof.
  intros Hj Hk. unfold candidate.
  destruct j as [|[|j]], k as [|[|k]]; try lia; try done.
  - intros Heq. rewrite <- (str_app_nil_r original) in Heq at 1.
    by apply String.app_inj in Heq.
  - intros Heq. rewrite <- (str_app_nil_r original) in Heq at 2.
    by apply String.app_inj in Heq.
  - intros Heq. do 2 apply String.app_inj in Heq.
    by apply (inj pretty.pretty) in Heq.
Qed.

(** The loop ends before its fuel does when the fuel covers the names still
    to be met: at the first candidate that is not among the chats. *)
Lemma unique_name_finds fuel original counter available (rest : list string) :
  (1 ≤ counter)%nat → (length rest ≤ fuel)%nat →
  (∀ k, (counter ≤ k)%nat →
        candidate original k ∈ available → candidate original k ∈ rest) →
  ∃ k, (counter ≤ k)%nat
       ∧ unique_name fuel original counter (candidate original counter) available
         = Some (candidate original k)
       ∧ (candidate original k ∉ available)
       ∧ ∀ j, (counter ≤ j)%nat → (j < k)%nat → candidate original j ∈ available.
Proof.
  revert counter rest. induction fuel as [|fuel IH]; intros counter rest Hc Hlen Hrest.
  - exists counter. simpl.
    destruct (decide (candidate original counter ∈ available)) as [Hin|Hin].
    { apply Hrest in Hin; [|done]. destruct rest; [by apply not_elem_of_nil in Hin|].
      simpl in Hlen. lia. }
    rewrite bool_decide_eq_false_2 by done. split_and!; try done. lia.
  - simpl.
    destruct (decide (candidate original counter ∈ available)) as [Hin|Hin].
    2: { exists counter. rewrite bool_decide_eq_false_2 by done.
         split_and!; try done. lia. }
    rewrite bool_decide_eq_true_2 by done. rewrite candidate_next by done.
    destruct (IH (S counter)
                (filter (λ n, n ≠ candidate original counter) rest))
      as (k & Hk & Hrun & Hfresh & Hbelow).
    + lia.
    + pose proof (length_filter_lt (λ n, n ≠ candidate original counter) rest
                    (candidate original counter)) as Hlt.
      specialize (Hlt (Hrest _ ltac:(done) Hin)). 
      assert (¬ candidate original counter ≠ candidate original counter) as Hnn
        by (intros Hne; by apply Hne).
      specialize (Hlt Hnn). lia.
    + intros j Hj Hjin. apply list_elem_of_filter. split.
      * intros Heq%candidate_inj; lia.
      * apply Hrest; [lia|done].
    + exists k. split_and!; try done; [lia|].
      intros j Hj Hjk. destruct (decide (j = counter)) as [->|Hne]; [done|].
      apply Hbelow; lia.
Qed.

(** X17.  The loop that picks the name of a new chat ends within as many
    rounds as the user has chats.  The name it ends with is not the name of
    any of these chats; it is the original name when that is free, and else
    the original name with the least suffix _k, k ≥ 2, that is free.  More
    rounds change nothing. *)
Theorem unique_name_is_fresh (original : string) (available : list string) (fuel : nat) :
  (length available ≤ fuel)%nat →
  ∃ k, (1 ≤ k)%nat
       ∧ unique_name fuel original 1 original available = Some (candidate original k)
       ∧ unique_name (length available) original 1 original available
         = Some (candidate original k)
       ∧ (candidate original k ∉ available)
       ∧ (∀ j, (1 ≤ j)%nat → (j < k)%nat → candidate original j ∈ available)
       ∧ (original ∉ available → candidate original k = original).
Proof.
  intros Hfuel.
  destruct (unique_name_finds fuel original 1 available available)
    as (k & Hk & Hrun & Hfresh & Hbelow); [done..|].
  destruct (unique_name_finds (length available) original 1 available available)
    as (k' & Hk' & Hrun' & Hfresh' & Hbelow'); [done..|].
  assert (k' = k) as ->.
  { destruct (decide (k' < k)%nat) as [Hlt|Hge].
    { destruct Hfresh'. apply Hbelow; lia. }
    destruct (decide (k < k')%nat) as [Hlt|Hge'].
    { destruct Hfresh. apply Hbelow'; lia. }
    lia. }
  exists k. split_and!; try done.
  intros Horig. destruct (decide (k = 1)%nat) as [->|Hne]; [done|].
  destruct Horig. apply (Hbelow 1%nat); lia.
Qed.

End new_chat_names.

Section round_trip_again.
Import ChatStore ConversationManager.

(** Saving and loading again, for use below. *)
Lemma load_after_save self x msgs (s : ChatStore.t) :
  faults s = [] →
  (save_history self x msgs s).1 = Ok tt
  ∧ (load_history self x (save_history self x msgs s).2).1 = Ok msgs.
Proof.
  intros Hs. rewrite save_history_ok by done. split; [done|].
  rewrite load_history_ok by done. simpl.
  destruct (filter_upsert_rows (self_username self) x (to_json <$> msgs)
              (if ts_columns s then Some (clock s) else None) (chats s))
    as (row & rest & -> & ->).
  f_equal. rewrite <- list_fmap_compose.
  rewrite <- (list_fmap_id msgs) at 2.
  apply list_fmap_ext. intros _ m _. apply of_json_to_json.
Qed.

End round_trip_again.

Section chat_turn.
Import RAGAgentUI.
Context `{Embeddings} `{LanguageModel}.
Implicit Types (s : RAGAgentUI.t).

(** The chat turn, step by step, when the knowledge store answers. *)
Lemma on_prompt_run question s :
  DocStore.faults (doc_store s) = [] →
  let chunks :=
    DocStore.to_document <$>
      DocStore.top_k question 5 {[ "username" := JStr (username s) ]}
        (DocStore.documents (doc_store s)) in
  let docs' := DocStore.mk (DocStore.documents (doc_store s)) [] in
  on_prompt question s =
    match generate (grounding_context chunks) (messages s) question with
    | Some answer =>
        let history := messages s ++ [HumanMessage question; AIMessage answer] in
        (Ok answer,
         mk (username s) (current_chat s) history
           (ConversationManager.save_history (ConversationManager.mk (username s))
              (current_chat s) history (chat_store s)).2
           docs')
    | None =>
        (Raise ModelError,
         mk (username s) (current_chat s) (messages s ++ [HumanMessage question])
           (chat_store s) docs')
    end.
Proof.
  intros Hd chunks docs'.
  unfold on_prompt, get_conversational_rag_chain, append_message, get_messages,
    as_retriever, on_docs, DocStore.similarity_search.
  unfold mbind, M_bind, bind, mret, M_ret, ret, raise. simpl.
  rewrite docs_execute_ok by done. simpl.
  rewrite removelast_last. fold chunks.
  destruct (generate (grounding_context chunks) (messages s) question) as [answer|];
    simpl; [|done].
  unfold on_chats. simpl.
  rewrite <- app_assoc. simpl.
  pose proof (save_history_returns (ConversationManager.mk (username s))
                (current_chat s)
                (messages s ++ [HumanMessage question; AIMessage answer])
                (chat_store s)) as Hret.
  destruct (ConversationManager.save_history _ _ _ (chat_store s)) as [r c].
  simpl in *. by subst r.
Qed.

(** X18.  After a chat turn that went through, with both stores
    answering, the chat is saved: [load_history] of the current chat returns
    the messages of the session, which are the earlier ones followed by the
    question and the answer; the documents table is as it was. *)
Theorem on_prompt_saves_chat question answer s :
  DocStore.faults (doc_store s) = [] →
  ChatStore.faults (chat_store s) = [] →
  (on_prompt question s).1 = Ok answer →
  let s' := (on_prompt question s).2 in
  messages s' = messages s ++ [HumanMessage question; AIMessage answer]
  ∧ (ConversationManager.load_history (ConversationManager.mk (username s'))
       (current_chat s') (chat_store s')).1 = Ok (messages s')
  ∧ DocStore.documents (doc_store s') = DocStore.documents (doc_store s).
Proof.
  intros Hd Hc. rewrite on_prompt_run by done.
  destruct (generate _ (messages s) question) as [a|]; [|done].
  simpl. intros [= <-]. split_and!; try done.
  by destruct (load_after_save (ConversationManager.mk (username s))
                 (current_chat s)
                 (messages s ++ [HumanMessage question; AIMessage a])
                 (chat_store s) Hc) as [_ ?].
Qed.

(** X19.  When the knowledge store fails or the model fails, the chat
    turn raises: the question has then been appended to the messages of the
    session, and nothing has been saved. *)
Theorem on_prompt_failure_saves_nothing question s :
  let chunks :=
    DocStore.to_document <$>
      DocStore.top_k question 5 {[ "username" := JStr (username s) ]}
        (DocStore.documents (doc_store s)) in
  (DocStore.faults (doc_store s) = [] →
     generate (grounding_context chunks) (messages s) question = None →
     (on_prompt question s).1 = Raise ModelError)
  ∧ (∀ fs, DocStore.faults (doc_store s) = true :: fs →
       (on_prompt question s).1 = Raise StoreError)
  ∧ (∀ e, (on_prompt question s).1 = Raise e →
       messages (on_prompt question s).2 = messages s ++ [HumanMessage question]
       ∧ chat_store (on_prompt question s).2 = chat_store s).
Proof.
  intros chunks.
  assert (∀ fs, DocStore.faults (doc_store s) = true :: fs →
            on_prompt question s
            = (Raise StoreError,
               mk (username s) (current_chat s)
                 (messages s ++ [HumanMessage question]) (chat_store s)
                 (DocStore.mk (DocStore.documents (doc_store s)) fs))) as Hdown.
  { intros fs Hfs.
    unfold on_prompt, get_conversational_rag_chain, append_message, get_messages,
      as_retriever, on_docs, DocStore.similarity_search, DocStore.execute.
    unfold mbind, M_bind, bind, mret, M_ret, ret, raise. simpl. by rewrite Hfs. }
  split_and!.
  - intros Hd Hnone. rewrite on_prompt_run by done. fold chunks. by rewrite Hnone.
  - intros fs Hfs. by rewrite (Hdown fs Hfs).
  - intros e. destruct (DocStore.faults (doc_store s)) as [|[] fs] eqn:Hfs.
    + rewrite on_prompt_run by done. fold chunks.
      by destruct (generate (grounding_context chunks) (messages s) question).
    + by rewrite (Hdown fs eq_refl).
    + (* the first call succeeds: as when no call is scheduled to fail *)
      unfold on_prompt, get_conversational_rag_chain, append_message, get_messages,
        as_retriever, on_docs, DocStore.similarity_search, DocStore.execute.
      unfold mbind, M_bind, bind, mret, M_ret, ret, raise. simpl. rewrite Hfs. simpl.
      rewrite removelast_last. fold chunks.
      destruct (generate (grounding_context chunks) (messages s) question) as [a|];
        simpl; [|done].
      unfold on_chats. simpl.
      pose proof (save_history_returns (ConversationManager.mk (username s))
                    (current_chat s)
                    ((messages s ++ [HumanMessage question]) ++ [AIMessage a])
                    (chat_store s)) as Hret.
      destruct (ConversationManager.save_history _ _ _ (chat_store s)) as [r c].
      simpl in *. by subst r.
Qed.

End chat_turn.

Section ingestion_samples.
Import DocumentProcessor Sample Scenes.

(** X14 at work: after a batch with notes.txt, the file that was there as
    temp_notes.txt is gone, the other file is not. *)
Lemma process_uploaded_files_cleans_up_witness :
  (process_uploaded_files [csv_file; txt_file] busy_disk).1
    = Ok [mkDocument "b" (Some {[ "source" := JStr "temp_notes.txt" ]})]
  ∧ Disk.files (process_uploaded_files [csv_file; txt_file] busy_disk).2
      !! "temp_notes.txt" = None
  ∧ Disk.files (process_uploaded_files [csv_file; txt_file] busy_disk).2
      !! "keep.me" = Some [Byte.x64].
Proof.
  assert ((process_uploaded_files [csv_file; txt_file] busy_disk).1
          = Ok [mkDocument "b" (Some {[ "source" := JStr "temp_notes.txt" ]})])
    as Hres by (vm_compute; reflexivity).
  split; [exact Hres|].
  pose proof (process_uploaded_files_cleans_up [csv_file; txt_file] busy_disk _ Hres)
    as Hclean.
  split.
  - rewrite (Hclean "temp_notes.txt"). vm_compute. reflexivity.
  - rewrite (Hclean "keep.me"). vm_compute. reflexivity.
Defined.

(** X15 at work: garbled.txt is not UTF-8 and cannot be read after
    notes.txt went through; its temporary copy stays. *)
Lemma failed_load_leaves_temp_file_witness :
  Disk.faults disk = []
  ∧ (process_uploaded_files ([txt_file] ++ garbled_txt :: [csv_file]) disk).1
    = Raise LoaderError
  ∧ Disk.files (process_uploaded_files ([txt_file] ++ garbled_txt :: [csv_file]) disk).2
      !! temp_path garbled_txt = Some [Byte.x62; Byte.xff].
Proof.
  split; [reflexivity|].
  apply (failed_load_leaves_temp_file [txt_file] [csv_file] garbled_txt disk).
  - reflexivity.
  - intros f Hf _. apply elem_of_cons in Hf as [->|Hf];
      [by eexists|by apply not_elem_of_nil in Hf].
  - by eexists.
  - reflexivity.
Defined.

(** X16 at work: Report.v2.PDF goes to the PDF loader. *)
Lemma loader_by_last_extension_witness :
  slash_free "Report.v2" = true ∧ slash_free "PDF" = true
  ∧ dot_free "PDF" = true ∧ "PDF" ≠ ""
  ∧ temp_path (mkUploadedFile "Report.v2.PDF" []) = "temp_Report.v2.PDF"
  ∧ supported (mkUploadedFile "Report.v2.PDF" []).
Proof.
  split; [reflexivity|]. split; [reflexivity|]. split; [reflexivity|].
  split; [discriminate|].
  destruct (loader_by_last_extension "Report.v2" "PDF" [] PyPDFLoader)
    as (Hpath & _ & Hsup); [reflexivity..|discriminate|].
  split; [exact Hpath|]. apply Hsup. vm_compute. left.
Defined.

End ingestion_samples.

Section handler_samples.
Import Handlers Sample Scenes.

(** X17 at work: the original name and its _2 are taken; two rounds give _3. *)
Lemma unique_name_is_fresh_witness :
  (length ["New Chat 1"; "New Chat 1_2"] ≤ 2)%nat
  ∧ unique_name 2 "New Chat 1" 1 "New Chat 1" ["New Chat 1"; "New Chat 1_2"]
    = Some "New Chat 1_3".
Proof.
  split; [reflexivity|].
  destruct (unique_name_is_fresh "New Chat 1" ["New Chat 1"; "New Chat 1_2"] 2)
    as (k & _ & Hrun & _); [reflexivity|].
  rewrite Hrun. rewrite <- Hrun. vm_compute. reflexivity.
Defined.

(** X18 at work: alice asks in her chat "X". *)
Lemma on_prompt_saves_chat_witness :
  DocStore.faults (RAGAgentUI.doc_store session) = []
  ∧ ChatStore.faults (RAGAgentUI.chat_store session) = []
  ∧ (ConversationManager.load_history me "X"
       (RAGAgentUI.chat_store (RAGAgentUI.on_prompt "what?" session).2)).1
    = Ok (greeting ++ [HumanMessage "what?"; AIMessage "alice's notes?what?"]).
Proof.
  split; [reflexivity|]. split; [reflexivity|].
  destruct (on_prompt_saves_chat "what?" "alice's notes?what?" session)
    as (Hmsgs & Hload & _); [reflexivity..|].
  rewrite Hmsgs in Hload. exact Hload.
Defined.

End handler_samples.

Section handlers_facts.
Import ChatStore ConversationManager Handlers.
Context `{Embeddings} `{Builtins}.
Implicit Types (s : Handlers.t).

#[local] Abbreviation user s := (RAGAgentUI.username (ui s)).
#[local] Abbreviation current s := (RAGAgentUI.current_chat (ui s)).
#[local] Abbreviation history s := (RAGAgentUI.messages (ui s)).
#[local] Abbreviation store s := (RAGAgentUI.chat_store (ui s)).

(** The session with another chat store. *)
Lemma with_conv_run {A} (call : ConversationManager.t → M ChatStore.t A) s r c :
  call (ConversationManager.mk (user s)) (store s) = (r, c) →
  with_conv call s
  = (r, Handlers.mk
          (RAGAgentUI.mk (user s) (current s) (history s) c
             (RAGAgentUI.doc_store (ui s)))
          (prev_chat s)).
Proof. intros Hcall. unfold with_conv, RAGAgentUI.on_chats. by rewrite Hcall. Qed.

Lemma nonblank_true (x : string) : x ≠ "" → nonblank x = true.
Proof. intros Hx. unfold nonblank. by rewrite bool_decide_eq_false_2. Qed.

Lemma nonempty_true {A} (l : list A) : l ≠ [] → nonempty l = true.
Proof. by destruct l. Qed.


End handlers_facts.

Section page_blocks.
Import ChatStore ConversationManager Handlers.
Context `{Embeddings} `{Builtins}.
Implicit Types (s : Handlers.t).

#[local] Abbreviation user s := (RAGAgentUI.username (ui s)).
#[local] Abbreviation current s := (RAGAgentUI.current_chat (ui s)).
#[local] Abbreviation history s := (RAGAgentUI.messages (ui s)).
#[local] Abbreviation store s := (RAGAgentUI.chat_store (ui s)).

Lemma load_history_run self x (c : ChatStore.t) :
  faults c = [] →
  load_history self x c = ((load_history self x c).1, c).
Proof. intros Hc. by rewrite load_history_ok. Qed.

Lemma load_other_after_save self x y msgs (c : ChatStore.t) :
  faults c = [] → y ≠ x →
  (load_history self y (save_history self x msgs c).2).1 = (load_history self y c).1.
Proof.
  intros Hc Hy. rewrite save_history_ok by done.
  rewrite !load_history_ok by done. simpl.
  rewrite (filter_upsert_rows_other (matches (self_username self) y)); [done| |].
  - intros r [_ Hx] [_ Hy']. congruence.
  - intros r. unfold matches. by rewrite upsert_row_username, upsert_row_chat_name.
Qed.

Lemma save_history_faults self x msgs (c : ChatStore.t) :
  faults c = [] → faults (save_history self x msgs c).2 = [].
Proof. intros Hc. by rewrite save_history_ok. Qed.

(** X21.  The load block of the chat page, with a store that answers.  It
    does nothing when the current chat is the one loaded last.  Otherwise it
    first saves the messages of the session under the name loaded last (when
    there are messages and that name is not empty), then puts the stored
    messages of the current chat into the session and notes the chat as
    loaded; running it again changes nothing. *)
Theorem load_current_chat_spec s :
  faults (store s) = [] →
  let conv := ConversationManager.mk (user s) in
  let s' := (load_current_chat s).2 in
  (load_current_chat s).1 = Ok tt
  ∧ current s' = current s ∧ prev_chat s' = current s
  ∧ (prev_chat s = current s → s' = s)
  ∧ (prev_chat s ≠ current s →
       Ok (history s') = (load_history conv (current s) (store s')).1)
  ∧ (prev_chat s ≠ current s → prev_chat s ≠ "" → history s ≠ [] →
       (load_history conv (prev_chat s) (store s')).1 = Ok (history s))
  ∧ load_current_chat s' = (Ok tt, s').
Proof.
  intros Hs conv s'. subst s'.
  destruct s as [[u x msgs c docs] prev]. simpl in *.
  assert (∀ st : Handlers.t, prev_chat st = current st →
            load_current_chat st = (Ok tt, st)) as Hsame.
  { intros st Hst. unfold load_current_chat, get, mbind, M_bind, bind. simpl.
    by rewrite bool_decide_eq_false_2 by (by intros []). }
  destruct (decide (prev = x)) as [->|Hne].
  { rewrite Hsame by done. simpl. split_and!; try done. by apply Hsame. }
  unfold load_current_chat, get, put_session.
  unfold mbind, M_bind, bind, mret, M_ret, ret. simpl.
  rewrite (bool_decide_eq_true_2 (prev ≠ x)) by done. rewrite andb_true_r.
  set (flush := nonblank prev && nonempty msgs).
  assert (∃ c1, faults c1 = []
            ∧ (if flush
               then with_conv (λ conv, save_history conv prev msgs)
               else (λ st, (Ok tt, st)))
                (Handlers.mk (RAGAgentUI.mk u x msgs c docs) prev)
              = (Ok tt, Handlers.mk (RAGAgentUI.mk u x msgs c1 docs) prev)
            ∧ (prev ≠ "" → msgs ≠ [] →
                 (load_history (ConversationManager.mk u) prev c1).1 = Ok msgs))
    as (c1 & Hc1 & -> & Hsaved).
  { destruct flush eqn:Hflush.
    - exists (save_history (ConversationManager.mk u) prev msgs c).2.
      split; [by apply save_history_faults|]. split.
      + apply with_conv_run. simpl.
        pose proof (save_history_returns (ConversationManager.mk u) prev msgs c)
          as Hret.
        destruct (save_history _ prev msgs c) as [r c']. simpl in *. by subst r.
      + intros _ _. by apply load_after_save.
    - exists c. split; [done|]. split; [done|].
      intros Hprev Hmsgs. subst flush.
      by rewrite nonblank_true, nonempty_true in Hflush. }
  simpl.
  erewrite with_conv_run by (simpl; by apply load_history_ok). simpl.
  split_and!; try done.
  - by rewrite load_history_ok.
  - by rewrite (bool_decide_eq_false_2 (x ≠ x)) by (by intros ?).
Qed.

Lemma delete_chat_run self x (c : ChatStore.t) :
  faults c = [] →
  delete_chat self x c
  = (Ok tt, with_chats (filter (λ r, ¬ matches (self_username self) x r) (chats c)) c).
Proof. apply delete_chat_ok. Qed.

End page_blocks.

Section listing_again.
Import ChatStore ConversationManager.

(** The listing as a permutation of the user's rows, for use below. *)
Lemma get_available_chats_order_helper self (c : ChatStore.t) :
  faults c = [] →
  ∃ rows, (get_available_chats self c).1 = Ok (chat_name <$> rows)
          ∧ rows ≡ₚ filter (λ r, username r = self_username self) (chats c).
Proof.
  intros Hc. rewrite get_available_chats_ok by done.
  destruct (ts_columns c); eexists; (split; [done|]); [|done].
  apply sort_by_Permutation.
Qed.

End listing_again.

Section sidebar_blocks.
Import ChatStore ConversationManager Handlers.
Context `{Embeddings} `{Builtins}.
Implicit Types (s : Handlers.t).

#[local] Abbreviation user s := (RAGAgentUI.username (ui s)).
#[local] Abbreviation current s := (RAGAgentUI.current_chat (ui s)).
#[local] Abbreviation history s := (RAGAgentUI.messages (ui s)).
#[local] Abbreviation store s := (RAGAgentUI.chat_store (ui s)).

Lemma get_available_chats_run self (c : ChatStore.t) :
  faults c = [] →
  ∃ names,
    get_available_chats self c = (Ok names, c)
    ∧ ∀ x, x ∈ names ↔ filter (matches (self_username self) x) (chats c) ≠ [].
Proof.
  intros Hc.
  assert (get_available_chats self c = ((get_available_chats self c).1, c)) as Hrun.
  { destruct c as [rows fs ts ck]. simpl in Hc. subst fs.
    unfold get_available_chats, try_except, select_user_ordered, select_user,
      mbind, M_bind, bind, mret, M_ret, ret, execute, with_chats. simpl.
    by destruct ts. }
  destruct (get_available_chats_order_helper self c Hc) as (rows & Hres & Hperm).
  exists (chat_name <$> rows). split; [by rewrite Hrun, Hres|]. intros x.
  rewrite list_elem_of_fmap. setoid_rewrite Hperm. split.
  - intros (r & -> & [Hu Hr]%list_elem_of_filter) Hnil.
    eapply filter_nil_iff in Hnil; [|exact Hr]. by apply Hnil.
  - intros Hrows.
    destruct (filter (matches (self_username self) x) (chats c))
      as [|r rest] eqn:Hf; [done|].
    assert (r ∈ filter (matches (self_username self) x) (chats c)) as Hin
      by (rewrite Hf; left).
    apply list_elem_of_filter in Hin as [[Hu Hx] Hr].
    exists r. split; [done|]. by apply list_elem_of_filter.
Qed.

(** What the save in front of a switch leaves: the store still answers,
    and the chat holds the messages when they were saved. *)
Lemma flush_run (flush : bool) u x msgs (c : ChatStore.t) docs prev :
  faults c = [] →
  ∃ c1, faults c1 = []
    ∧ (if flush
       then with_conv (λ conv, save_history conv x msgs)
       else (λ st, (Ok tt, st)))
        (Handlers.mk (RAGAgentUI.mk u x msgs c docs) prev)
      = (Ok tt, Handlers.mk (RAGAgentUI.mk u x msgs c1 docs) prev)
    ∧ (flush = true →
         (load_history (ConversationManager.mk u) x c1).1 = Ok msgs)
    ∧ (∀ y, y ≠ x →
         (load_history (ConversationManager.mk u) y c1).1
         = (load_history (ConversationManager.mk u) y c).1)
    ∧ (flush = false → c1 = c)
    ∧ (∀ y, y ≠ x →
         filter (matches u y) (chats c1) = filter (matches u y) (chats c)).
Proof.
  intros Hc. destruct flush.
  - exists (save_history (ConversationManager.mk u) x msgs c).2.
    split; [by apply save_history_faults|]. split_and!; try done.
    + apply with_conv_run. simpl.
      pose proof (save_history_returns (ConversationManager.mk u) x msgs c) as Hret.
      destruct (save_history _ x msgs c) as [r c']. simpl in *. by subst r.
    + intros _. by apply load_after_save.
    + intros y Hy. by apply load_other_after_save.
    + intros y Hy. rewrite save_history_ok by done. simpl.
      apply (filter_upsert_rows_other (matches u y)).
      * intros r [_ Hx] [_ Hy']. congruence.
      * intros r. unfold matches.
        by rewrite upsert_row_username, upsert_row_chat_name.
  - exists c. by split_and!.
Qed.

(** X23.  Picking another chat in the selector, and the load block of the
    next run, with a store that answers and the current chat in the table:
    the messages of the session are saved under the current chat (when there
    are any and its name is not empty), the selected chat keeps what it
    held, and the session is then on the selected chat with its stored
    messages. *)
Theorem switch_chat_keeps_messages s (selected : string) :
  faults (store s) = [] →
  filter (matches (user s) (current s)) (chats (store s)) ≠ [] →
  selected ≠ current s → selected ≠ "" →
  let conv := ConversationManager.mk (user s) in
  let s' := ((select_chat selected;; load_current_chat) s).2 in
  current s' = selected ∧ prev_chat s' = selected
  ∧ (history s ≠ [] → current s ≠ "" →
       (load_history conv (current s) (store s')).1 = Ok (history s))
  ∧ (load_history conv selected (store s')).1
    = (load_history conv selected (store s)).1
  ∧ Ok (history s') = (load_history conv selected (store s)).1.
Proof.
  intros Hs Hrow Hsel Hblank conv s'. subst s'.
  destruct s as [[u x msgs c docs] prev]. simpl in *.
  destruct (get_available_chats_run (ConversationManager.mk u) c Hs)
    as (names & Hlist & Hnames).
  assert (x ∈ names) as Hx by (by apply Hnames).
  unfold select_chat, load_current_chat, get, put_session.
  unfold mbind, M_bind, bind, mret, M_ret, ret. simpl.
  erewrite with_conv_run by (simpl; exact Hlist). simpl.
  destruct names as [|first rest]; [by apply not_elem_of_nil in Hx|].
  rewrite (bool_decide_eq_true_2 (x ∈ first :: rest)) by done. simpl.
  rewrite (bool_decide_eq_true_2 (selected ≠ x)) by done.
  destruct (flush_run (nonempty msgs && nonblank x) u x msgs c docs prev Hs)
    as (c1 & Hc1 & -> & Hsaved & Hother & _).
  simpl.
  rewrite (bool_decide_eq_true_2 ("" ≠ selected)) by done. simpl.
  erewrite with_conv_run by (simpl; by apply load_history_ok). simpl.
  split_and!; try done.
  - intros Hmsgs Hxne. apply Hsaved.
    by rewrite nonempty_true, nonblank_true.
  - by apply Hother.
  - rewrite <- Hother by done. by rewrite load_history_ok.
Qed.

(** X24.  When the current chat of the session is not among the chats of
    the table, the selector block puts the first listed chat in its place;
    picking another chat in that same run then saves the messages of the
    session under the name of that first chat, in place of what it held. *)
Theorem select_chat_saves_under_first s (selected first : string)
    (rest : list string) :
  faults (store s) = [] →
  (get_available_chats (ConversationManager.mk (user s)) (store s)).1
    = Ok (first :: rest) →
  current s ∉ first :: rest →
  selected ≠ first → first ≠ "" → history s ≠ [] →
  let conv := ConversationManager.mk (user s) in
  let s' := (select_chat selected s).2 in
  current s' = selected ∧ prev_chat s' = "" ∧ history s' = history s
  ∧ (load_history conv first (store s')).1 = Ok (history s).
Proof.
  intros Hs Hlisting Hx Hsel Hfirst Hmsgs conv s'. subst s'.
  destruct s as [[u x msgs c docs] prev]. simpl in *.
  destruct (get_available_chats_run (ConversationManager.mk u) c Hs)
    as (names & Hlist & _).
  rewrite Hlist in Hlisting. simpl in Hlisting. injection Hlisting as ->.
  unfold select_chat, get, put_session.
  unfold mbind, M_bind, bind, mret, M_ret, ret. simpl.
  erewrite with_conv_run by (simpl; exact Hlist). simpl.
  rewrite (bool_decide_eq_false_2 (x ∈ first :: rest)) by done. simpl.
  rewrite (bool_decide_eq_true_2 (selected ≠ first)) by done.
  rewrite nonempty_true, nonblank_true by done. simpl.
  destruct (flush_run true u first msgs c docs prev Hs)
    as (c1 & Hc1 & Hflush & Hsaved & _).
  simpl in Hflush. rewrite Hflush. simpl.
  split_and!; try done. by apply Hsaved.
Qed.

(** X25.  The "New Chat" button, with a store that answers, when the
    session has no messages or its current chat is in the table.  The name
    loop ends, the button succeeds, and the session is on a new, empty chat
    whose name was not the name of any chat of the user: "New Chat" with the
    time stamp, or that with the least free suffix _k.  The messages the
    session had are saved under the chat that was current. *)
Theorem new_chat_creates s (timestamp : string) :
  faults (store s) = [] →
  (history s = [] ∨ filter (matches (user s) (current s)) (chats (store s)) ≠ []) →
  let conv := ConversationManager.mk (user s) in
  let s' := (new_chat timestamp s).2 in
  ∃ k, (1 ≤ k)%nat
    ∧ (new_chat timestamp s).1 = Ok (Some true)
    ∧ current s' = candidate ("New Chat " +:+ timestamp) k
    ∧ history s' = [] ∧ prev_chat s' = ""
    ∧ filter (matches (user s) (current s')) (chats (store s)) = []
    ∧ (∀ j, (1 ≤ j)%nat → (j < k)%nat →
         filter (matches (user s) (candidate ("New Chat " +:+ timestamp) j))
           (chats (store s)) ≠ [])
    ∧ (load_history conv (current s') (store s')).1 = Ok []
    ∧ (history s ≠ [] →
         (load_history conv (current s) (store s')).1 = Ok (history s)).
Proof.
  intros Hs Hcur conv s'. subst s'.
  destruct s as [[u x msgs c docs] prev]. simpl in *.
  destruct (get_available_chats_run (ConversationManager.mk u) c Hs)
    as (names & Hlist & Hnames). simpl in Hnames.
  set (original := "New Chat " +:+ timestamp).
  destruct (unique_name_finds (length names) original 1 names names)
    as (k & Hk & Hloop & Hfresh & Hbelow); [done..|].
  change (candidate original 1) with original in Hloop.
  set (name := candidate original k) in *.
  assert (filter (matches u name) (chats c) = []) as Hfree.
  { destruct (filter (matches u name) (chats c)) eqn:Hf; [done|].
    destruct Hfresh. apply Hnames. by rewrite Hf. }
  destruct (flush_run (nonempty msgs) u x msgs c docs prev Hs)
    as (c1 & Hc1 & Hflush & Hsaved & Hother & Hsame & Hrows).
  assert (filter (matches u name) (chats c1) = []) as Hfree1.
  { destruct msgs as [|m msgs].
    - by rewrite (Hsame eq_refl).
    - rewrite Hrows; [done|]. intros ->. destruct Hcur as [?|Hrow]; [done|].
      by apply Hfresh, Hnames. }
  pose proof (create_new_chat_ok (ConversationManager.mk u) name c1 Hc1) as Hcreate.
  simpl in Hcreate. rewrite Hfree1 in Hcreate.
  exists k. split; [done|].
  unfold new_chat, get, put_session.
  unfold mbind, M_bind, bind, mret, M_ret, ret. simpl.
  erewrite with_conv_run by (simpl; exact Hlist). simpl.
  rewrite Hflush. simpl. fold original. rewrite Hloop.
  erewrite with_conv_run by (simpl; exact Hcreate). simpl.
  set (row := if ts_columns c1 then _ else _).
  assert (matches u name row ∧ messages row = []) as [Hrow Hrowmsgs]
    by (subst row; by destruct (ts_columns c1)).
  split_and!; try done.
  - intros j Hj Hjk. by apply Hnames, Hbelow.
  - rewrite load_history_ok by done. simpl.
    rewrite filter_app, Hfree1. simpl.
    rewrite filter_cons, decide_True by done. by rewrite Hrowmsgs.
  - intros Hmsgs. rewrite load_history_ok by done. simpl.
    assert (name ≠ x) as Hne.
    { intros ->. destruct Hcur as [?|Hx]; [done|]. by apply Hfresh, Hnames. }
    rewrite filter_app_fresh
      by (destruct Hrow as [_ Hn]; intros [_ Hx]; congruence).
    rewrite <- Hsaved by (by apply nonempty_true).
    by rewrite load_history_ok.
Qed.

(** X22.  The "Delete Chat" button and the run that follows it (the
    selector block of the sidebar, then the load block), with a store that
    answers and the selector giving one of the chats it lists.  The rows of
    the deleted chat are gone and nothing else is written, so the chat
    loads as empty.  The session stays on the default chat "New Chat" only
    when the user has no chat left; otherwise it ends on the chat the
    selector gives, so it leaves "New Chat" whenever the user has chats and
    none of that name.  The session shows the stored messages of the chat
    it ends on (when its name is not empty), and going through the selector
    block once more changes nothing. *)
Theorem delete_then_next_run s (selected : string) (listing : list string) :
  faults (store s) = [] →
  (get_available_chats (ConversationManager.mk (user s))
     (store (delete_current_chat s).2)).1 = Ok listing →
  (listing ≠ [] → selected ∈ listing) →
  let conv := ConversationManager.mk (user s) in
  let s1 := ((delete_current_chat;; select_chat selected) s).2 in
  let s' := ((delete_current_chat;; select_chat selected;; load_current_chat) s).2 in
  chats (store s')
    = filter (λ r, ¬ matches (user s) (current s) r) (chats (store s))
  ∧ (load_history conv (current s) (store s')).1 = Ok []
  ∧ current s' = match listing with
                 | [] => DEFAULT_CHAT_NAME
                 | _ :: _ => selected
                 end
  ∧ current s1 = current s'
  ∧ prev_chat s' = current s'
  ∧ (current s' ≠ "" →
       Ok (history s') = (load_history conv (current s') (store s')).1)
  ∧ select_chat selected s1 = (Ok tt, s1).
Proof.
  intros Hs Hlisting Hsel conv s1 s'. subst s1 s'.
  destruct s as [[u x msgs c docs] prev]. simpl in *.
  set (c1 := with_chats (filter (λ r, ¬ matches u x r) (chats c)) c).
  assert (faults c1 = []) as Hc1 by done.
  assert (delete_current_chat (Handlers.mk (RAGAgentUI.mk u x msgs c docs) prev)
          = (Ok tt, Handlers.mk (RAGAgentUI.mk u DEFAULT_CHAT_NAME [] c1 docs) ""))
    as Hdelete.
  { unfold delete_current_chat, get, put_session.
    unfold mbind, M_bind, bind, mret, M_ret, ret. simpl.
    erewrite with_conv_run by (simpl; by apply delete_chat_run). done. }
  rewrite Hdelete in Hlisting. simpl in Hlisting.
  destruct (get_available_chats_run (ConversationManager.mk u) c1 Hc1)
    as (names & Hlist & _).
  rewrite Hlist in Hlisting. simpl in Hlisting. injection Hlisting as ->.
  assert ((load_history (ConversationManager.mk u) x c1).1 = Ok []) as Hgone.
  { rewrite load_history_ok by done. simpl.
    rewrite (proj2 (filter_nil_iff (matches u x) _)); [done|].
    intros r Hr. by apply list_elem_of_filter in Hr as [? _]. }
  assert (∀ current,
            (current = DEFAULT_CHAT_NAME ∧ listing = []) ∨
            (current = selected ∧ listing ≠ []) →
            select_chat selected
              (Handlers.mk (RAGAgentUI.mk u current [] c1 docs) "")
            = (Ok tt, Handlers.mk (RAGAgentUI.mk u current [] c1 docs) ""))
    as Hagain.
  { intros current Hcurrent. unfold select_chat, get, put_session.
    unfold mbind, M_bind, bind, mret, M_ret, ret. simpl.
    erewrite with_conv_run by (simpl; exact Hlist). simpl.
    destruct Hcurrent as [[-> ->]|[-> Hne]]; [done|].
    destruct listing as [|first rest]; [done|].
    rewrite (bool_decide_eq_true_2 (selected ∈ first :: rest)) by (by apply Hsel).
    simpl. by rewrite bool_decide_eq_false_2 by (by intros ?). }
  assert (select_chat selected
            (Handlers.mk (RAGAgentUI.mk u DEFAULT_CHAT_NAME [] c1 docs) "")
          = (Ok tt,
             Handlers.mk
               (RAGAgentUI.mk u
                  match listing with [] => DEFAULT_CHAT_NAME | _ :: _ => selected end
                  [] c1 docs) "")) as Hselect.
  { unfold select_chat, get, put_session.
    unfold mbind, M_bind, bind, mret, M_ret, ret. simpl.
    erewrite with_conv_run by (simpl; exact Hlist). simpl.
    destruct listing as [|first rest]; [done|]. simpl.
    set (shown := if bool_decide (DEFAULT_CHAT_NAME ∈ first :: rest)
                  then DEFAULT_CHAT_NAME else first).
    destruct (decide (selected = shown)) as [->|Hother].
    - by rewrite bool_decide_eq_false_2 by (by intros ?).
    - by rewrite bool_decide_eq_true_2 by done. }
  set (landed := match listing with [] => DEFAULT_CHAT_NAME | _ :: _ => selected end)
    in *.
  assert ((delete_current_chat;; select_chat selected)
            (Handlers.mk (RAGAgentUI.mk u x msgs c docs) prev)
          = (Ok tt, Handlers.mk (RAGAgentUI.mk u landed [] c1 docs) ""))
    as Hfirst.
  { unfold mbind, M_bind, bind. by rewrite Hdelete, Hselect. }
  assert ((delete_current_chat;; select_chat selected;; load_current_chat)
            (Handlers.mk (RAGAgentUI.mk u x msgs c docs) prev)
          = load_current_chat (Handlers.mk (RAGAgentUI.mk u landed [] c1 docs) ""))
    as Hsecond.
  { unfold mbind, M_bind, bind. by rewrite Hdelete, Hselect. }
  rewrite Hfirst, Hsecond. simpl.
  assert ((load_current_chat
             (Handlers.mk (RAGAgentUI.mk u landed [] c1 docs) "")).2
          = Handlers.mk
              (RAGAgentUI.mk u landed
                 (if decide (landed = "") then []
                  else default [] (match (load_history (ConversationManager.mk u) landed c1).1
                                   with Ok l => Some l | Raise _ => None end))
                 c1 docs)
              landed) as Hload.
  { unfold load_current_chat, get, put_session.
    unfold mbind, M_bind, bind, mret, M_ret, ret. simpl.
    destruct (decide (landed = "")) as [->|Hblank].
    - by rewrite bool_decide_eq_false_2 by (by intros ?).
    - rewrite bool_decide_eq_true_2 by (by intros ?). simpl.
      erewrite with_conv_run by (simpl; by apply load_history_run). simpl.
      by rewrite load_history_ok. }
  rewrite Hload. simpl. split_and!; try done.
  - intros Hblank. rewrite decide_False by done.
    unfold conv. by rewrite load_history_ok.
  - apply Hagain. subst landed.
    destruct listing; [by left|by right].
Qed.

End sidebar_blocks.

Section page_samples.
Import ChatStore ConversationManager Handlers Sample Scenes Pages.


(** X21 at work: the load block after a switch from "X" to "Z". *)
Lemma load_current_chat_spec_witness :
  ChatStore.faults (RAGAgentUI.chat_store (ui switched)) = []
  ∧ prev_chat (load_current_chat switched).2 = "Z"
  ∧ (load_history me "X"
       (RAGAgentUI.chat_store (ui (load_current_chat switched).2))).1
    = Ok greeting.
Proof.
  split; [reflexivity|].
  destruct (load_current_chat_spec switched) as (_ & _ & Hprev & _ & _ & Hsaved & _);
    [reflexivity|].
  split; [exact Hprev|].
  apply Hsaved; discriminate.
Defined.

(** X22 at work: alice deletes "X"; the next run lists "Z" alone and ends
    on it, with bob's "X" still in the table. *)
Lemma delete_then_next_run_witness :
  (get_available_chats me
     (RAGAgentUI.chat_store (ui (delete_current_chat on_x).2))).1 = Ok ["Z"]
  ∧ RAGAgentUI.current_chat
      (ui ((delete_current_chat;; select_chat "Z";; load_current_chat) on_x).2) = "Z"
  ∧ prev_chat ((delete_current_chat;; select_chat "Z";; load_current_chat) on_x).2
    = "Z"
  ∧ chat_name <$> chats (RAGAgentUI.chat_store
                           (ui ((delete_current_chat;; select_chat "Z";;
                                 load_current_chat) on_x).2))
    = ["X"; "Z"].
Proof.
  assert ((get_available_chats me
             (RAGAgentUI.chat_store (ui (delete_current_chat on_x).2))).1
          = Ok ["Z"]) as Hlist by (vm_compute; reflexivity).
  split; [exact Hlist|].
  destruct (delete_then_next_run on_x "Z" ["Z"])
    as (Hrows & _ & Hcur & _ & Hprev & _); [reflexivity|exact Hlist|by left|].
  split; [exact Hcur|]. split; [rewrite Hprev; exact Hcur|].
  rewrite Hrows. vm_compute. reflexivity.
Defined.

(** X23 at work: alice goes from "X" to "Z". *)
Lemma switch_chat_keeps_messages_witness :
  ChatStore.faults (RAGAgentUI.chat_store (ui on_x)) = []
  ∧ RAGAgentUI.current_chat (ui ((select_chat "Z";; load_current_chat) on_x).2) = "Z"
  ∧ (load_history me "X"
       (RAGAgentUI.chat_store (ui ((select_chat "Z";; load_current_chat) on_x).2))).1
    = Ok (greeting ++ [HumanMessage "more"]).
Proof.
  split; [reflexivity|].
  destruct (switch_chat_keeps_messages on_x "Z") as (Hcur & _ & Hsaved & _);
    [reflexivity|vm_compute; discriminate|discriminate|discriminate|].
  split; [exact Hcur|].
  apply Hsaved; discriminate.
Defined.

(** X24 at work: the messages alice typed under "Draft" go to her chat
    "Z", the first of the listing, when she picks "X". *)
Lemma select_chat_saves_under_first_witness :
  (get_available_chats me two_users).1 = Ok ["Z"; "X"]
  ∧ RAGAgentUI.current_chat (ui (select_chat "X" unsaved).2) = "X"
  ∧ (load_history me "Z" (RAGAgentUI.chat_store (ui (select_chat "X" unsaved).2))).1
    = Ok greeting.
Proof.
  assert ((get_available_chats me two_users).1 = Ok ["Z"; "X"]) as Hlist
    by (vm_compute; reflexivity).
  split; [exact Hlist|].
  destruct (select_chat_saves_under_first unsaved "X" "Z" ["X"])
    as (Hcur & _ & _ & Hsaved);
    [reflexivity|exact Hlist| |discriminate|discriminate|discriminate|].
  { intros Hin. repeat (apply elem_of_cons in Hin as [Hin|Hin]; [discriminate|]).
    by apply not_elem_of_nil in Hin. }
  split; [exact Hcur|exact Hsaved].
Defined.

(** X25 at work: alice presses "New Chat" on her chat "X". *)
Lemma new_chat_creates_witness :
  ChatStore.faults (RAGAgentUI.chat_store (ui on_x)) = []
  ∧ (new_chat "11-03_10-00-00" on_x).1 = Ok (Some true)
  ∧ RAGAgentUI.messages (ui (new_chat "11-03_10-00-00" on_x).2) = []
  ∧ (load_history me "X"
       (RAGAgentUI.chat_store (ui (new_chat "11-03_10-00-00" on_x).2))).1
    = Ok (greeting ++ [HumanMessage "more"]).
Proof.
  split; [reflexivity|].
  destruct (new_chat_creates on_x "11-03_10-00-00")
    as (k & _ & Hrun & _ & Hmsgs & _ & _ & _ & _ & Hsaved);
    [reflexivity|right; vm_compute; discriminate|].
  split; [exact Hrun|]. split; [exact Hmsgs|].
  apply Hsaved. discriminate.
Defined.

End page_samples.
